(** * NewZeaLiDAR: a shallow embedding of the DEM production pipeline

    The development follows the repository file by file:
    - [Py]       the Python values, exceptions and dictionaries the code uses;
    - [Utils]    src/utils.py: configuration access, the dataset-mapping
                 export and the geometry algorithms;
    - [Datasets] src/datasets.py: the crawler's Dataset upsert;
    - [Process]  src/process.py: instructions assembly, the per-catchment
                 run and the batch orchestrator;
    - [Datum]    scripts/datum_lvd_nzvd2016.py: the special-directory
                 finish of the datum transformation.

    Everything outside the repository (the operating system, PostgreSQL,
    shapely, geofabrics, pdal) enters as a record of operations the
    theorems quantify over. *)

From Stdlib Require Import List String Ascii ZArith QArith Bool Lia.
From Stdlib Require Import DecimalString Permutation Qround.
Import ListNotations.

Set Warnings "-register-all".

Local Open Scope string_scope.
Local Open Scope Z_scope.

(* ================================================================== *)
(** ** Python values, exceptions, results *)
(* ================================================================== *)

Module Py.

(** The exceptions the modelled code raises, with the key or message they
    carry. *)
Inductive exn : Type :=
| KeyError (key : string)
| ValueError (msg : string)
| TypeError (msg : string)
| AttributeError (msg : string)
| AssertionError (msg : string)
| IndexError (msg : string)
| FileNotFoundError (msg : string)
| CalledProcessError (cmd : string)
| OSError (msg : string)
| Exception (msg : string).

(** The outcome of a call: a value, or a raised exception. *)
Inductive result (A : Type) : Type :=
| Ok (a : A)
| Raise (e : exn).
Arguments Ok {A} a.
Arguments Raise {A} e.

Definition rbind {A B} (r : result A) (k : A -> result B) : result B :=
  match r with
  | Ok a => k a
  | Raise e => Raise e
  end.

Definition is_ok {A} (r : result A) : bool :=
  match r with Ok _ => true | Raise _ => false end.

(** What a JSON document or a Python dictionary holds.  A dictionary keeps
    its keys in insertion order. *)
Inductive obj : Type :=
| PNone
| PBool (b : bool)
| PInt (z : Z)
| PFloat (q : Q)
| PStr (s : string)
| PList (l : list obj)
| PDict (d : list (string * obj)).

(** [bool(x)]: the truth value Python gives an object in an [if]. *)
Definition truthy (x : obj) : bool :=
  match x with
  | PNone => false
  | PBool b => b
  | PInt z => negb (z =? 0)
  | PFloat q => negb (Qeq_bool q 0)
  | PStr s => negb (String.eqb s "")
  | PList l => match l with [] => false | _ => true end
  | PDict d => match d with [] => false | _ => true end
  end.

Definition is_none (x : obj) : bool :=
  match x with PNone => true | _ => false end.

(** Dictionary primitives on the insertion-ordered key list. *)
Fixpoint lookup (k : string) (d : list (string * obj)) : option obj :=
  match d with
  | [] => None
  | (k', v) :: d' => if String.eqb k k' then Some v else lookup k d'
  end.

(** [d[k] = v]: an existing key keeps its position, a new key goes last. *)
Fixpoint dict_set (k : string) (v : obj) (d : list (string * obj)) : list (string * obj) :=
  match d with
  | [] => [(k, v)]
  | (k', v') :: d' =>
      if String.eqb k k' then (k', v) :: d' else (k', v') :: dict_set k v d'
  end.

(** [x[k]] for a string key. *)
Definition getitem (x : obj) (k : string) : result obj :=
  match x with
  | PDict d => match lookup k d with
               | Some v => Ok v
               | None => Raise (KeyError k)
               end
  | _ => Raise (TypeError "object is not subscriptable by a string key")
  end.

(** [x.get(k)]: only dictionaries have the method. *)
Definition get (x : obj) (k : string) : result obj :=
  match x with
  | PDict d => match lookup k d with
               | Some v => Ok v
               | None => Ok PNone
               end
  | _ => Raise (AttributeError "object has no attribute 'get'")
  end.

(** [x[k] = v] for a string key. *)
Definition setitem (x : obj) (k : string) (v : obj) : result obj :=
  match x with
  | PDict d => Ok (PDict (dict_set k v d))
  | _ => Raise (TypeError "object does not support item assignment")
  end.

(** [x[k1][k2]...[kn]]. *)
Fixpoint get_path (x : obj) (ks : list string) : result obj :=
  match ks with
  | [] => Ok x
  | k :: ks' => rbind (getitem x k) (fun c => get_path c ks')
  end.

(** [x[k1]...[kn][k] = v]: the inner dictionaries are shared objects, so the
    assignment shows in [x]; a missing key on the way raises [KeyError]. *)
Fixpoint set_path (x : obj) (ks : list string) (k : string) (v : obj) : result obj :=
  match ks with
  | [] => setitem x k v
  | k1 :: ks' =>
      rbind (getitem x k1) (fun c =>
      rbind (set_path c ks' k v) (fun c' =>
      setitem x k1 c'))
  end.

(** [str(z)] for an integer. *)
Definition str_of_Z (z : Z) : string := NilZero.string_of_int (Z.to_int z).

(** [needle in hay] for strings. *)
Fixpoint contains (needle hay : string) : bool :=
  if String.prefix needle hay then true
  else match hay with
       | EmptyString => false
       | String _ hay' => contains needle hay'
       end.

(** [s.endswith(suffix)]. *)
Definition endswith (s suffix : string) : bool :=
  let n := String.length s in
  let m := String.length suffix in
  (m <=? n)%nat && String.eqb (String.substring (n - m) m s) suffix.

(** [c.lower()] on one character: the letters A to Z move to a to z. *)
Definition lower_ascii (c : ascii) : ascii :=
  let n := nat_of_ascii c in
  if ((65 <=? n) && (n <=? 90))%nat then ascii_of_nat (n + 32) else c.

(** [s.lower()].  A string is its UTF-8 bytes here; bytes above 127 are left
    as they are (Unicode lower-casing sends no character outside ASCII to a
    letter or digit of the six words the reader recognises). *)
Fixpoint lower (s : string) : string :=
  match s with
  | EmptyString => EmptyString
  | String c s' => String (lower_ascii c) (lower s')
  end.

End Py.

Import Py.

Notation "x <- r ;; k" := (rbind r (fun x => k))
  (at level 61, r at next level, right associativity).

(* ================================================================== *)
(** ** src/utils.py: configuration access *)
(* ================================================================== *)

Module Utils.

(** The [cast_to] argument: [bool] is the special case of [_cast_str]; any
    other type is called on the value as it is ([str], [int], [float]). *)
Inductive cast : Type :=
| cast_bool
| cast_callable (f : option string -> result obj).

(** [str(x)] on what [os.getenv] returns. *)
Definition py_str (x : option string) : result obj :=
  match x with
  | Some s => Ok (PStr s)
  | None => Ok (PStr "None")
  end.

Definition cast_to_str : cast := cast_callable py_str.

Definition truth_values : list string := ["true"; "t"; "1"].
Definition false_values : list string := ["false"; "f"; "0"].

Definition mem (s : string) (l : list string) : bool :=
  existsb (String.eqb s) l.

Definition _cast_str (str_to_cast : option string) (cast_to : cast) : result obj :=
  match cast_to with
  | cast_bool =>
      match str_to_cast with
      | None => Raise (AttributeError "'NoneType' object has no attribute 'lower'")
      | Some s =>
          if mem (lower s) truth_values then Ok (PBool true)
          else if mem (lower s) false_values then Ok (PBool false)
          else Raise (ValueError (s ++ " being casted to bool but is not in truth_values or false_values"))
      end
  | cast_callable f => f str_to_cast
  end.

(** [os.getenv(var_name, default)]. *)
Definition getenv (environ : string -> option string) (var_name : string)
  (default : option string) : option string :=
  match environ var_name with
  | Some v => Some v
  | None => default
  end.

Definition env_missing (var_name : string) : exn :=
  KeyError ("Environment variable " ++ var_name ++ " not set, and allow_empty is False").

Definition get_env_variable (environ : string -> option string) (var_name : string)
  (default : option string) (allow_empty : bool) (cast_to : cast) : result obj :=
  let env_var := getenv environ var_name default in
  let empty := match env_var with
               | None => true
               | Some s => String.eqb s ""
               end in
  if negb allow_empty && empty then Raise (env_missing var_name)
  else _cast_str env_var cast_to.

(** A call with the defaults: [get_env_variable(var_name)]. *)
Definition get_env (environ : string -> option string) (var_name : string) : result obj :=
  get_env_variable environ var_name None false cast_to_str.

(** *** Dataset-id mapping export *)

(** [df.sort_values(by='id')] on the rows of [SELECT name, id FROM dataset]
    (rows with the same id keep their order). *)
Fixpoint insert_by_id (r : string * Z) (l : list (string * Z)) : list (string * Z) :=
  match l with
  | [] => [r]
  | r' :: l' => if snd r <=? snd r' then r :: l else r' :: insert_by_id r l'
  end.

Definition sort_values_by_id (df : list (string * Z)) : list (string * Z) :=
  fold_right insert_by_id [] df.

(** [dict(zip(df['name'], df['id']))]: a later row of the same name takes
    the entry over. *)
Definition dict_zip (df : list (string * Z)) : list (string * obj) :=
  fold_left (fun d r => dict_set (fst r) (PInt (snd r)) d) df [].

(** The function reads the instructions file, edits the document and writes
    it back; the second component is the content of the file afterwards.  An
    exception leaves the first [with] block before the file is opened for
    writing. *)
Definition map_dataset_name_with_id (table : list (string * Z)) (instructions_file : obj)
  : result unit * obj :=
  let df := sort_values_by_id table in
  let edited :=
    instructions <- Ok instructions_file ;;
    inner <- getitem instructions "instructions" ;;
    mapping <- get inner "dataset_mapping" ;;
    instructions <-
      (if truthy mapping
       then set_path instructions ["instructions"] "dataset_mapping"
              (PDict [("lidar", PDict [])])
       else Ok instructions) ;;
    instructions <-
      set_path instructions ["instructions"; "dataset_mapping"] "lidar"
        (PDict (dict_zip df)) ;;
    set_path instructions ["instructions"; "dataset_mapping"; "lidar"] "Unknown" (PInt 0)
  in
  match edited with
  | Ok instructions => (Ok tt, instructions)
  | Raise e => (Raise e, instructions_file)
  end.

(** The mapping the function is to leave under [dataset_mapping.lidar]. *)
Definition lidar_mapping (table : list (string * Z)) : list (string * obj) :=
  dict_set "Unknown" (PInt 0) (dict_zip (sort_values_by_id table)).

(** The id of the last row called [n]. *)
Fixpoint last_id (n : string) (df : list (string * Z)) : option Z :=
  match df with
  | [] => None
  | r :: df' =>
      match last_id n df' with
      | Some i => Some i
      | None => if String.eqb n (fst r) then Some (snd r) else None
      end
  end.

(** *** Boolean coercion *)

Lemma mem_In (s : string) (l : list string) : mem s l = true <-> In s l.
Proof.
  unfold mem. rewrite existsb_exists. split.
  - intros [x [Hin Heq]]. apply String.eqb_eq in Heq. now subst.
  - intros Hin. exists s. split; [assumption | apply String.eqb_refl].
Qed.

Lemma false_not_truth (s : string) : In s false_values -> mem s truth_values = false.
Proof.
  unfold false_values. simpl.
  intros [H | [H | [H | []]]]; subst; reflexivity.
Qed.

(** C8. Boolean coercion of a configuration value: a string whose
    lower-casing is one of "true", "t", "1" is read as [True]; one whose
    lower-casing is one of "false", "f", "0" is read as [False]; every other
    string raises [ValueError]. *)
Theorem cast_str_bool_coercion (s : string) :
  (In (lower s) truth_values -> _cast_str (Some s) cast_bool = Ok (PBool true)) /\
  (In (lower s) false_values -> _cast_str (Some s) cast_bool = Ok (PBool false)) /\
  (~ In (lower s) truth_values -> ~ In (lower s) false_values ->
   exists msg, _cast_str (Some s) cast_bool = Raise (ValueError msg)).
Proof.
  unfold _cast_str. split; [| split].
  - intros H. apply mem_In in H. now rewrite H.
  - intros H. rewrite (false_not_truth _ H).
    apply mem_In in H. now rewrite H.
  - intros Ht Hf.
    destruct (mem (lower s) truth_values) eqn:Et.
    + apply mem_In in Et. contradiction.
    + destruct (mem (lower s) false_values) eqn:Ef.
      * apply mem_In in Ef. contradiction.
      * eexists. reflexivity.
Qed.

Lemma cast_str_bool_coercion_witness :
  _cast_str (Some "True") cast_bool = Ok (PBool true) /\
  _cast_str (Some "F") cast_bool = Ok (PBool false) /\
  (exists msg, _cast_str (Some "yes") cast_bool = Raise (ValueError msg)).
Proof.
  split; [| split].
  - apply (proj1 (cast_str_bool_coercion "True")). simpl. auto.
  - apply (proj1 (proj2 (cast_str_bool_coercion "F"))). simpl. auto.
  - apply (proj2 (proj2 (cast_str_bool_coercion "yes"))); simpl;
      intros H; repeat (destruct H as [H | H]; [discriminate H |]); exact H.
Defined.

(** The reader itself, on a variable that is set and not empty, coerces the
    same way: the emptiness test comes first and lets the value through. *)
Lemma get_env_variable_bool (environ : string -> option string) (v s : string) :
  environ v = Some s -> s <> "" ->
  get_env_variable environ v None false cast_bool = _cast_str (Some s) cast_bool.
Proof.
  intros Hv Hs. unfold get_env_variable, getenv. rewrite Hv.
  apply String.eqb_neq in Hs. now rewrite Hs.
Qed.

(** *** Dictionaries *)

Lemma lookup_dict_set_eq (k : string) (v : obj) (d : list (string * obj)) :
  lookup k (dict_set k v d) = Some v.
Proof.
  induction d as [| [k' v'] d IH]; simpl.
  - now rewrite String.eqb_refl.
  - destruct (String.eqb k k') eqn:E; simpl; rewrite E; auto.
Qed.

Lemma lookup_dict_set_ne (k k0 : string) (v : obj) (d : list (string * obj)) :
  k0 <> k -> lookup k0 (dict_set k v d) = lookup k0 d.
Proof.
  intros Hne. induction d as [| [k' v'] d IH]; simpl.
  - apply String.eqb_neq in Hne. now rewrite Hne.
  - destruct (String.eqb k k') eqn:E; simpl.
    + apply String.eqb_eq in E. subst k'.
      apply String.eqb_neq in Hne. now rewrite Hne.
    + now rewrite IH.
Qed.

Lemma lookup_dict_zip_acc (n : string) (df : list (string * Z)) (d : list (string * obj)) :
  lookup n (fold_left (fun d r => dict_set (fst r) (PInt (snd r)) d) df d) =
  match last_id n df with
  | Some i => Some (PInt i)
  | None => lookup n d
  end.
Proof.
  revert d. induction df as [| [m i] df IH]; intros d; simpl.
  - reflexivity.
  - rewrite IH. destruct (last_id n df) as [j |]; [reflexivity |].
    destruct (String.eqb n m) eqn:E.
    + apply String.eqb_eq in E. subst m. apply lookup_dict_set_eq.
    + apply String.eqb_neq in E. now apply lookup_dict_set_ne.
Qed.

Lemma lookup_dict_zip (n : string) (df : list (string * Z)) :
  lookup n (dict_zip df) = option_map PInt (last_id n df).
Proof.
  unfold dict_zip. rewrite lookup_dict_zip_acc.
  destruct (last_id n df); reflexivity.
Qed.

(** What the exported mapping answers for a name: 0 for the reserved
    "Unknown", and for any other name the id of its row in the table. *)
Lemma lookup_lidar_mapping (table : list (string * Z)) (n : string) :
  lookup n (lidar_mapping table) =
  if String.eqb n "Unknown" then Some (PInt 0)
  else option_map PInt (last_id n (sort_values_by_id table)).
Proof.
  unfold lidar_mapping. destruct (String.eqb n "Unknown") eqn:E.
  - apply String.eqb_eq in E. subst n. apply lookup_dict_set_eq.
  - apply String.eqb_neq in E. rewrite lookup_dict_set_ne by assumption.
    apply lookup_dict_zip.
Qed.

Lemma insert_by_id_perm (r : string * Z) (l : list (string * Z)) :
  Permutation (insert_by_id r l) (r :: l).
Proof.
  induction l as [| r' l IH]; simpl.
  - apply Permutation_refl.
  - destruct (snd r <=? snd r').
    + apply Permutation_refl.
    + eapply Permutation_trans; [apply perm_skip, IH | apply perm_swap].
Qed.

Lemma sort_values_by_id_perm (df : list (string * Z)) :
  Permutation (sort_values_by_id df) df.
Proof.
  induction df as [| r df IH]; simpl.
  - apply Permutation_refl.
  - eapply Permutation_trans; [apply insert_by_id_perm | now apply perm_skip].
Qed.

Lemma last_id_In (n : string) (i : Z) (df : list (string * Z)) :
  last_id n df = Some i -> In (n, i) df.
Proof.
  induction df as [| [m j] df IH]; simpl; [discriminate |].
  destruct (last_id n df) as [k |].
  - intros H. right. apply IH. assumption.
  - destruct (String.eqb n m) eqn:E; [| discriminate].
    intros H. injection H as ->. apply String.eqb_eq in E. subst m. now left.
Qed.

Lemma last_id_None (n : string) (df : list (string * Z)) :
  ~ In n (map fst df) -> last_id n df = None.
Proof.
  induction df as [| [m j] df IH]; simpl; [reflexivity |].
  intros H. rewrite IH by tauto.
  destruct (String.eqb n m) eqn:E; [| reflexivity].
  apply String.eqb_eq in E. subst m. tauto.
Qed.

Lemma last_id_unique (n : string) (i : Z) (df : list (string * Z)) :
  NoDup (map fst df) -> In (n, i) df -> last_id n df = Some i.
Proof.
  induction df as [| [m j] df IH]; simpl; [tauto |].
  intros Hnd Hin. inversion Hnd as [| x xs Hx Hxs]; subst.
  destruct Hin as [Heq | Hin].
  - injection Heq as -> ->. rewrite (last_id_None n df Hx).
    now rewrite String.eqb_refl.
  - now rewrite (IH Hxs Hin).
Qed.

(** With one row per name in the table, the exported mapping holds exactly
    the table's pairs next to the reserved entry. *)
Lemma lidar_mapping_pairs (table : list (string * Z)) (n : string) (v : obj) :
  NoDup (map fst table) -> ~ In "Unknown" (map fst table) ->
  (lookup n (lidar_mapping table) = Some v <->
   (n = "Unknown" /\ v = PInt 0) \/ (exists i, In (n, i) table /\ v = PInt i)).
Proof.
  intros Hnd Hun. rewrite lookup_lidar_mapping.
  assert (Hp := sort_values_by_id_perm table).
  destruct (String.eqb n "Unknown") eqn:E.
  - apply String.eqb_eq in E. subst n. split.
    + intros H. injection H as <-. now left.
    + intros [[_ ->] | [i [Hin _]]]; [reflexivity |].
      exfalso. apply Hun. apply in_map_iff. exists ("Unknown", i). now split.
  - apply String.eqb_neq in E. split.
    + intros H. right.
      destruct (last_id n (sort_values_by_id table)) as [i |] eqn:El; [| discriminate].
      injection H as <-. exists i. split; [| reflexivity].
      apply (Permutation_in _ Hp). now apply last_id_In.
    + intros [[Hn _] | [i [Hin ->]]]; [contradiction |].
      rewrite (last_id_unique n i); [reflexivity | |].
      * apply (Permutation_NoDup (l := map fst table)); [| assumption].
        apply Permutation_map. now apply Permutation_sym.
      * apply (Permutation_in _ (Permutation_sym Hp)). assumption.
Qed.

(** Run the dictionary reads and writes of a goal as far as the known
    lookups allow. *)
Ltac dict_steps :=
  repeat (progress (simpl;
                    repeat match goal with
                           | H : lookup _ _ = _ |- _ => rewrite H
                           | H : truthy _ = _ |- _ => rewrite H
                           end;
                    rewrite ?lookup_dict_set_eq)).

(** For every instructions document whose [instructions] object has no
    [dataset_mapping] key the function raises [KeyError] and leaves the file
    as it was; so a run that succeeds had the key. *)
Lemma map_dataset_name_missing_key (table : list (string * Z))
  (top inner : list (string * obj)) :
  lookup "instructions" top = Some (PDict inner) ->
  lookup "dataset_mapping" inner = None ->
  map_dataset_name_with_id table (PDict top) =
    (Raise (KeyError "dataset_mapping"), PDict top).
Proof.
  intros Htop Hin. unfold map_dataset_name_with_id.
  dict_steps. reflexivity.
Qed.

(** A key bound to an object, or to anything true in an [if], is enough. *)
Definition usable_mapping (v : obj) : Prop :=
  truthy v = true \/ exists d, v = PDict d.

Lemma map_dataset_name_present_key (table : list (string * Z))
  (top inner : list (string * obj)) (v : obj) :
  lookup "instructions" top = Some (PDict inner) ->
  lookup "dataset_mapping" inner = Some v ->
  usable_mapping v ->
  exists doc,
    map_dataset_name_with_id table (PDict top) = (Ok tt, doc) /\
    get_path doc ["instructions"; "dataset_mapping"; "lidar"] =
      Ok (PDict (lidar_mapping table)).
Proof.
  intros Htop Hin Hv. unfold map_dataset_name_with_id, lidar_mapping.
  set (m := dict_zip (sort_values_by_id table)).
  assert (Hfalsy : truthy v = false -> exists d, v = PDict d).
  { intros Hf. destruct Hv as [Ht | Hd]; [congruence | assumption]. }
  destruct (truthy v) eqn:Et.
  - dict_steps. eexists. split; [reflexivity |]. dict_steps. reflexivity.
  - destruct (Hfalsy eq_refl) as [d ->].
    destruct d; [| discriminate Et].
    dict_steps. eexists. split; [reflexivity |]. dict_steps. reflexivity.
Qed.

(** C10, as the code has it. For an instructions document whose
    [instructions] object lacks the [dataset_mapping] key the function raises
    [KeyError] before the file is written back, so it succeeds only when the
    key is there; when the key is bound to an object (an empty one too) or
    to any value that is true in an [if], the function succeeds and the
    [dataset_mapping.lidar] it writes is exactly the table's name-to-id
    pairs and the reserved "Unknown" mapped to 0. *)
Theorem map_dataset_name_with_id_key (table : list (string * Z))
  (top inner : list (string * obj)) :
  lookup "instructions" top = Some (PDict inner) ->
  (lookup "dataset_mapping" inner = None ->
   map_dataset_name_with_id table (PDict top) =
     (Raise (KeyError "dataset_mapping"), PDict top)) /\
  (fst (map_dataset_name_with_id table (PDict top)) = Ok tt ->
   lookup "dataset_mapping" inner <> None) /\
  (forall v, lookup "dataset_mapping" inner = Some v -> usable_mapping v ->
   exists doc,
     map_dataset_name_with_id table (PDict top) = (Ok tt, doc) /\
     get_path doc ["instructions"; "dataset_mapping"; "lidar"] =
       Ok (PDict (lidar_mapping table))) /\
  (forall n,
     lookup n (lidar_mapping table) =
     if String.eqb n "Unknown" then Some (PInt 0)
     else option_map PInt (last_id n (sort_values_by_id table))).
Proof.
  intros Htop. split; [| split; [| split]].
  - now apply map_dataset_name_missing_key.
  - intros Hok Hnone.
    rewrite (map_dataset_name_missing_key table top inner Htop Hnone) in Hok.
    discriminate Hok.
  - intros v Hin Hv. now apply (map_dataset_name_present_key table top inner v).
  - apply lookup_lidar_mapping.
Qed.

Definition base_instructions : obj :=
  PDict [("instructions",
          PDict [("output", PDict [("grid_params", PDict [("resolution", PInt 8)])]);
                 ("dataset_mapping", PDict [])])].

Lemma map_dataset_name_with_id_key_witness :
  exists doc,
    map_dataset_name_with_id [("NZ10_WHope", 2); ("NZ10_CAlpine", 1)] base_instructions
      = (Ok tt, doc) /\
    get_path doc ["instructions"; "dataset_mapping"; "lidar"] =
      Ok (PDict [("NZ10_CAlpine", PInt 1); ("NZ10_WHope", PInt 2); ("Unknown", PInt 0)]).
Proof.
  apply (proj1 (proj2 (proj2
    (map_dataset_name_with_id_key [("NZ10_WHope", 2); ("NZ10_CAlpine", 1)]
       [("instructions",
          PDict [("output", PDict [("grid_params", PDict [("resolution", PInt 8)])]);
                 ("dataset_mapping", PDict [])])]
       [("output", PDict [("grid_params", PDict [("resolution", PInt 8)])]);
        ("dataset_mapping", PDict [])]
       eq_refl))) (PDict [])).
  - reflexivity.
  - right. exists []. reflexivity.
Defined.

(** The mapping is not written for every document that has the key: where
    the key is present and bound to
    [null]: [.get] answers [None], the reset is skipped and the assignment
    into [None] raises [TypeError]; the file is left as it was. *)
Lemma map_dataset_name_null_mapping :
  lookup "dataset_mapping" [("dataset_mapping", PNone)] = Some PNone /\
  map_dataset_name_with_id [("NZ10_WHope", 1)]
    (PDict [("instructions", PDict [("dataset_mapping", PNone)])]) =
  (Raise (TypeError "object does not support item assignment"),
   PDict [("instructions", PDict [("dataset_mapping", PNone)])]).
Proof.
  split; reflexivity.
Qed.

(* ------------------------------------------------------------------ *)
(** *** More of src/utils.py: the reader, file discovery, the mapping *)
(* ------------------------------------------------------------------ *)

(** What [get_files] returns: the list of paths, or the one path itself
    when one file is expected. *)
Inductive files_result : Type :=
| AllPaths (file_path_list : list string)
| OnePath (file_path : string).

(** [get_files(filetype, file_path, expect)]; [found] is what the recursive
    glob of the directory yields, in its order. *)
Definition get_files (found : list string) (expect : Z) : result files_result :=
  let file_path_list := found in
  let n := Z.of_nat (List.length file_path_list) in
  if (expect <? 0) || ((1 <? expect) && (expect =? n)) then Ok (AllPaths file_path_list)
  else if (expect =? 1) && (n =? 1) then
    match file_path_list with
    | file_path :: _ => Ok (OnePath file_path)
    | [] => Raise (IndexError "list index out of range")
    end
  else Raise (FileNotFoundError "Error:: the number of files found is not the expected one.").

(** X1. The reader with [cast_to=str] returns exactly when emptiness is
    allowed or the variable, after the default, has a value that is not
    empty. A variable set to the empty string is not covered by the default:
    it raises the missing-configuration [KeyError]; and with [allow_empty] an
    unset variable with no default is read as the text "None", not as
    [None]. *)
Theorem get_env_variable_returns (environ : string -> option string) (var_name : string)
  (default : option string) (allow_empty : bool) :
  (is_ok (get_env_variable environ var_name default allow_empty cast_to_str) = true <->
   allow_empty = true \/
   exists s, getenv environ var_name default = Some s /\ s <> "") /\
  (environ var_name = Some "" ->
   get_env_variable environ var_name default false cast_to_str =
     Raise (env_missing var_name)) /\
  (environ var_name = None ->
   get_env_variable environ var_name None true cast_to_str = Ok (PStr "None")).
Proof.
  split; [| split].
  - unfold get_env_variable.
    destruct allow_empty; simpl.
    + split; [intros _; now left |].
      intros _. destruct (getenv environ var_name default); reflexivity.
    + destruct (getenv environ var_name default) as [s |]; simpl.
      * destruct (String.eqb s "") eqn:E; simpl.
        -- apply String.eqb_eq in E. split; [discriminate |].
           intros [H | [s' [H1 H2]]]; [discriminate |]. congruence.
        -- apply String.eqb_neq in E. split; [| reflexivity].
           intros _. right. exists s. now split.
      * split; [discriminate |].
        intros [H | [s' [H1 _]]]; discriminate.
  - intros H. unfold get_env_variable, getenv. rewrite H. reflexivity.
  - intros H. unfold get_env_variable, getenv. rewrite H. reflexivity.
Qed.

(** X2. [get_files] returns exactly when no count is expected
    ([expect < 0]) or the expected count is at least one and met; so with
    [expect = 0] it raises even when no file is found. When one file is
    expected and found the path itself is returned, not a list. *)
Theorem get_files_expect (found : list string) (expect : Z) :
  (is_ok (get_files found expect) = true <->
   expect < 0 \/ (1 <= expect /\ expect = Z.of_nat (List.length found))) /\
  (expect < 0 -> get_files found expect = Ok (AllPaths found)) /\
  (forall file_path, found = [file_path] -> get_files found 1 = Ok (OnePath file_path)) /\
  (1 < expect -> expect = Z.of_nat (List.length found) ->
   get_files found expect = Ok (AllPaths found)).
Proof.
  unfold get_files. split; [| split; [| split]].
  - remember (Z.of_nat (List.length found)) as n eqn:Hn.
    destruct (Z.ltb_spec expect 0) as [H0 | H0]; simpl.
    { split; [intros _; now left | reflexivity]. }
    destruct (Z.ltb_spec 1 expect) as [H1 | H1]; simpl.
    { destruct (Z.eqb_spec expect n) as [En | En]; simpl.
      - split; [intros _; right; lia | reflexivity].
      - destruct (Z.eqb_spec expect 1) as [E1 | E1]; [lia |]. simpl.
        split; [discriminate | lia]. }
    destruct (Z.eqb_spec expect 1) as [E1 | E1]; simpl.
    + destruct (Z.eqb_spec n 1) as [En | En]; simpl.
      * destruct found as [| f found']; simpl in Hn; [lia |].
        simpl. split; [intros _; right; lia | reflexivity].
      * split; [discriminate | lia].
    + split; [discriminate | lia].
  - intros H. apply Z.ltb_lt in H. now rewrite H.
  - intros file_path ->. reflexivity.
  - intros H1 H2. apply Z.ltb_lt in H1. apply Z.eqb_eq in H2.
    rewrite H1, H2, orb_true_r. reflexivity.
Qed.

(** What the file holds after the mapping was written. *)
Definition mapped_document (table : list (string * Z)) (top inner : list (string * obj)) : obj :=
  PDict (dict_set "instructions"
           (PDict (dict_set "dataset_mapping"
                     (PDict [("lidar", PDict (lidar_mapping table))]) inner))
           top).

Lemma dict_set_dict_set (k : string) (v v' : obj) (d : list (string * obj)) :
  dict_set k v (dict_set k v' d) = dict_set k v d.
Proof.
  induction d as [| [k' w] d IH]; simpl.
  - now rewrite String.eqb_refl.
  - destruct (String.eqb k k') eqn:E; simpl; rewrite E; [reflexivity | now rewrite IH].
Qed.

Lemma map_dataset_name_result (table : list (string * Z))
  (top inner : list (string * obj)) (v : obj) :
  lookup "instructions" top = Some (PDict inner) ->
  lookup "dataset_mapping" inner = Some v ->
  usable_mapping v ->
  map_dataset_name_with_id table (PDict top) = (Ok tt, mapped_document table top inner).
Proof.
  intros Htop Hin Hv. unfold map_dataset_name_with_id, mapped_document, lidar_mapping.
  set (m := dict_zip (sort_values_by_id table)).
  assert (Hfalsy : truthy v = false -> v = PDict []).
  { intros Hf. destruct Hv as [Ht | [d ->]]; [congruence |].
    destruct d; [reflexivity | discriminate Hf]. }
  destruct (truthy v) eqn:Et.
  - dict_steps. rewrite !dict_set_dict_set. reflexivity.
  - rewrite (Hfalsy eq_refl) in Hin.
    dict_steps. rewrite !dict_set_dict_set. reflexivity.
Qed.

(** X3. A run that succeeds rewrites all of [dataset_mapping] to the one
    entry [lidar]: whatever else the section held before is gone, and nothing
    else of the document changes: every other key of the [instructions]
    object and every other top-level key keeps its value. *)
Theorem map_dataset_name_frame (table : list (string * Z))
  (top inner : list (string * obj)) (v : obj) :
  lookup "instructions" top = Some (PDict inner) ->
  lookup "dataset_mapping" inner = Some v ->
  usable_mapping v ->
  exists top' inner',
    map_dataset_name_with_id table (PDict top) = (Ok tt, PDict top') /\
    lookup "instructions" top' = Some (PDict inner') /\
    lookup "dataset_mapping" inner' = Some (PDict [("lidar", PDict (lidar_mapping table))]) /\
    (forall k, k <> "dataset_mapping" -> lookup k inner' = lookup k inner) /\
    (forall k, k <> "instructions" -> lookup k top' = lookup k top).
Proof.
  intros Htop Hin Hv.
  rewrite (map_dataset_name_result table top inner v Htop Hin Hv).
  unfold mapped_document. eexists. eexists. split; [reflexivity |].
  split; [apply lookup_dict_set_eq |].
  split; [apply lookup_dict_set_eq |].
  split; intros k Hk; now apply lookup_dict_set_ne.
Qed.

Lemma map_dataset_name_frame_witness :
  exists top' inner',
    map_dataset_name_with_id [("NZ10_WHope", 2)]
      (PDict [("instructions",
               PDict [("output", PDict [("grid_params", PDict [("resolution", PInt 8)])]);
                      ("dataset_mapping", PDict [("vector", PDict [("old", PInt 5)])])])])
      = (Ok tt, PDict top') /\
    lookup "instructions" top' = Some (PDict inner') /\
    lookup "dataset_mapping" inner' =
      Some (PDict [("lidar", PDict [("NZ10_WHope", PInt 2); ("Unknown", PInt 0)])]) /\
    lookup "output" inner' = Some (PDict [("grid_params", PDict [("resolution", PInt 8)])]).
Proof.
  destruct (map_dataset_name_frame [("NZ10_WHope", 2)]
              [("instructions",
                PDict [("output", PDict [("grid_params", PDict [("resolution", PInt 8)])]);
                       ("dataset_mapping", PDict [("vector", PDict [("old", PInt 5)])])])]
              [("output", PDict [("grid_params", PDict [("resolution", PInt 8)])]);
               ("dataset_mapping", PDict [("vector", PDict [("old", PInt 5)])])]
              (PDict [("vector", PDict [("old", PInt 5)])])
              eq_refl eq_refl (or_introl eq_refl))
    as (top' & inner' & Hrun & Htop & Hmap & Hinner & _).
  exists top', inner'. split; [exact Hrun |]. split; [exact Htop |].
  split; [exact Hmap |]. rewrite Hinner by discriminate. reflexivity.
Defined.

(** X4. Writing the mapping is idempotent: run again on the file it wrote,
    with the same dataset table, the function succeeds and leaves the file as
    it is. *)
Theorem map_dataset_name_idempotent (table : list (string * Z))
  (top inner : list (string * obj)) (v : obj) (doc : obj) :
  lookup "instructions" top = Some (PDict inner) ->
  lookup "dataset_mapping" inner = Some v ->
  usable_mapping v ->
  map_dataset_name_with_id table (PDict top) = (Ok tt, doc) ->
  map_dataset_name_with_id table doc = (Ok tt, doc).
Proof.
  intros Htop Hin Hv Hrun.
  rewrite (map_dataset_name_result table top inner v Htop Hin Hv) in Hrun.
  injection Hrun as <-. unfold mapped_document.
  set (mapping := PDict [("lidar", PDict (lidar_mapping table))]).
  rewrite (map_dataset_name_result table
             (dict_set "instructions" (PDict (dict_set "dataset_mapping" mapping inner)) top)
             (dict_set "dataset_mapping" mapping inner) mapping).
  - unfold mapped_document. fold mapping. rewrite !dict_set_dict_set. reflexivity.
  - apply lookup_dict_set_eq.
  - apply lookup_dict_set_eq.
  - left. reflexivity.
Qed.

Lemma map_dataset_name_idempotent_witness :
  map_dataset_name_with_id [("NZ10_WHope", 2); ("NZ10_CAlpine", 1)]
    (snd (map_dataset_name_with_id [("NZ10_WHope", 2); ("NZ10_CAlpine", 1)]
            base_instructions)) =
  (Ok tt,
   snd (map_dataset_name_with_id [("NZ10_WHope", 2); ("NZ10_CAlpine", 1)] base_instructions)).
Proof.
  apply (map_dataset_name_idempotent [("NZ10_WHope", 2); ("NZ10_CAlpine", 1)]
           [("instructions",
             PDict [("output", PDict [("grid_params", PDict [("resolution", PInt 8)])]);
                    ("dataset_mapping", PDict [])])]
           [("output", PDict [("grid_params", PDict [("resolution", PInt 8)])]);
            ("dataset_mapping", PDict [])]
           (PDict [])).
  - reflexivity.
  - reflexivity.
  - right. exists []. reflexivity.
  - reflexivity.
Defined.

End Utils.

(* ================================================================== *)
(** ** src/utils.py: geometry algorithms *)
(* ================================================================== *)

Module Geometry.

Local Open Scope Q_scope.

(** A linear ring: a closed sequence of coordinates. *)
Definition ring : Type := list (Q * Q).

Record polygon : Type := mkPolygon {
  exterior : ring;
  interiors : list ring
}.

(** The shapely geometries the code tells apart with [isinstance]. *)
Inductive geometry : Type :=
| Polygon (p : polygon)
| MultiPolygon (geoms : list polygon)
| GeometryCollection (geoms : list geometry)
| OtherGeometry (coords : list (Q * Q)).

(** The operations of the geometry library the code calls.  Areas, bounds
    and distances are numbers of the library; the code only compares and
    halves them. *)
Record shapely : Type := mkShapely {
  area : geometry -> Q;
  bounds : geometry -> Q * Q * Q * Q;
  intersection : geometry -> geometry -> geometry;
  buffer : geometry -> Q -> geometry;
  unary_union : list geometry -> geometry
}.

(** [shapely.geometry.box(minx, miny, maxx, maxy)]. *)
Definition box (minx miny maxx maxy : Q) : geometry :=
  Polygon (mkPolygon
    [(maxx, miny); (maxx, maxy); (minx, maxy); (minx, miny); (maxx, miny)] []).

(** [isinstance(e, (Polygon, MultiPolygon))]. *)
Definition is_polygonal (e : geometry) : bool :=
  match e with
  | Polygon _ | MultiPolygon _ => true
  | _ => false
  end.

Definition is_multipolygon (e : geometry) : bool :=
  match e with
  | MultiPolygon _ => true
  | _ => false
  end.

(** [a > b] on the library's numbers. *)
Definition Qgt_bool (a b : Q) : bool := negb (Qle_bool a b).

(** *** katana *)

(** What a call comes to: it returns, it raises, or (in the model only)
    the allowance of nested calls ran out, [None]. *)
Definition outcome (A : Type) : Type := option (result A).

Definition and_then {A B : Type} (m : outcome A) (k : A -> outcome B) : outcome B :=
  match m with
  | None => None
  | Some (Raise x) => Some (Raise x)
  | Some (Ok a) => k a
  end.

Definition not_iterable : exn := TypeError "'GeometryCollection' object is not iterable".

(** What [for e in c] runs over.  A [c] that is no collection has become
    the list [[c]]; a [GeometryCollection] is handed to the loop as it is, and
    shapely 2, which the imports of the module need, has no iteration over a
    geometry: the loop raises [TypeError]. *)
Definition pieces (c : geometry) : result (list geometry) :=
  match c with
  | GeometryCollection _ => Raise not_iterable
  | _ => Ok [c]
  end.

(** The last loop of [katana]: a multi-part result gives its parts. *)
Definition single_parts (result : list geometry) : list geometry :=
  flat_map (fun g => match g with
                     | MultiPolygon ps => map Polygon ps
                     | _ => [g]
                     end) result.

(** [result.extend(katana(e, threshold, count+1))] over the polygonal [e]. *)
Fixpoint extend_all {A : Type} (rec : geometry -> outcome (list A))
  (es : list geometry) : outcome (list A) :=
  match es with
  | [] => Some (Ok [])
  | e :: es' =>
      if is_polygonal e then
        and_then (rec e) (fun r =>
        and_then (extend_all rec es') (fun rs => Some (Ok (r ++ rs)%list)))
      else extend_all rec es'
  end.

(** The loop [for d in (a, b,)]. *)
Fixpoint for_halves {A : Type} (lib : shapely) (rec : geometry -> outcome (list A))
  (geometry : geometry) (ds : list Geometry.geometry) : outcome (list A) :=
  match ds with
  | [] => Some (Ok [])
  | d :: ds' =>
      match pieces (intersection lib geometry d) with
      | Raise x => Some (Raise x)
      | Ok c =>
          and_then (extend_all rec c) (fun r =>
          and_then (for_halves lib rec geometry ds') (fun rs => Some (Ok (r ++ rs)%list)))
      end
  end.

(** The two halves of the bounding box, across the longer side. *)
Definition halves (b : Q * Q * Q * Q) : geometry * geometry :=
  let '(minx, miny, maxx, maxy) := b in
  let width := maxx - minx in
  let height := maxy - miny in
  if Qle_bool width height then
    (box minx miny maxx (miny + height / 2),
     box minx (miny + height / 2) maxx maxy)
  else
    (box minx miny (minx + width / 2) maxy,
     box (minx + width / 2) miny maxx maxy).

(** [katana(geometry, threshold, count)].  Python recursion is unbounded in
    the model's eyes, so the function takes the number of nested calls it
    may make: [None] says the allowance ran out. *)
Fixpoint katana (lib : shapely) (fuel : nat) (geometry : geometry)
  (threshold : Q) (count : Z) : outcome (list Geometry.geometry) :=
  match fuel with
  | O => None
  | S fuel' =>
      if Qle_bool (area lib geometry) threshold || (count =? 250)%Z then
        Some (Ok [geometry])
      else
        let '(a, b) := halves (bounds lib geometry) in
        and_then
          (for_halves lib (fun e => katana lib fuel' e threshold (count + 1)%Z)
                      geometry [a; b])
          (fun result =>
             if (0 <? count)%Z then Some (Ok result)
             else Some (Ok (single_parts result)))
  end.

(** *** remove_holes *)

(** [Polygon(interior)]: the ring as a polygon of its own. *)
Definition ring_polygon (interior : ring) : geometry :=
  Polygon (mkPolygon interior []).

(** The rings [remove_holes] keeps as holes of one part. *)
Definition kept_interiors (lib : shapely) (keep_threshold : Q) (geom : polygon) : list ring :=
  filter (fun interior => Qgt_bool (area lib (ring_polygon interior)) keep_threshold)
         (interiors geom).

(** The parts the loop of [remove_holes] runs over: [multipolygon.geoms],
    each of which must have an [exterior] and [interiors]. *)
Fixpoint polygons_of (gs : list geometry) : result (list polygon) :=
  match gs with
  | [] => Ok []
  | Polygon p :: gs' => ps <- polygons_of gs' ;; Ok (p :: ps)
  | _ :: _ => Raise (AttributeError "object has no attribute 'interiors'")
  end.

Definition geoms_of_multipolygon (polygon : geometry) : result (list Geometry.polygon) :=
  match polygon with
  | Polygon p => Ok [p]
  | MultiPolygon ps => Ok ps
  | GeometryCollection gs => polygons_of gs
  | OtherGeometry _ => Raise (AttributeError "object has no attribute 'geoms'")
  end.

(** The polygon a part is rebuilt as, before the repair by a zero buffer. *)
Definition rebuilt (lib : shapely) (keep_threshold : Q) (geom : polygon) : polygon :=
  mkPolygon (exterior geom) (kept_interiors lib keep_threshold geom).

Definition remove_holes (lib : shapely) (polygon : geometry) (keep_threshold : Q)
  : result geometry :=
  parts <- geoms_of_multipolygon polygon ;;
  let list_parts :=
    map (fun geom => buffer lib (Polygon (rebuilt lib keep_threshold geom)) 0) parts in
  Ok (unary_union lib list_parts).

Definition default_keep_threshold : Q := 10000 * 10000.

(** *** filter_geometry *)

Definition CATCHMENT_RESOLUTION : Q := 30.
Definition EPS : Q := 1 # 10.
Definition default_polygon_threshold : Q := 100 * 100.
Definition default_hole_threshold : Q := 1000 * 1000.

(** What the caller hands in: a GeoSeries, or one object. *)
Inductive geo_input : Type :=
| GeoSeries (values : list geometry)
| Single (g : geometry).

(** "combine geometry if possible". *)
Definition combine (lib : shapely) (geometry : geo_input) : result Geometry.geometry :=
  match geometry with
  | GeoSeries values => Ok (unary_union lib values)
  | Single (OtherGeometry _) => Raise (ValueError "geometry is not a valid type")
  | Single g => Ok (unary_union lib [g])
  end.

(** [geometry.geoms] of what is not a [Polygon]. *)
Definition geoms_of (geometry : geometry) : result (list Geometry.geometry) :=
  match geometry with
  | MultiPolygon ps => Ok (map Polygon ps)
  | GeometryCollection gs => Ok gs
  | _ => Raise (AttributeError "object has no attribute 'geoms'")
  end.

(** [MultiPolygon([...])]: every member must be a polygon. *)
Definition make_multipolygon (gs : list geometry) : result geometry :=
  match polygons_of gs with
  | Ok ps => Ok (MultiPolygon ps)
  | Raise _ => Raise (TypeError "a MultiPolygon is made of polygons")
  end.

(** "remove polygons the under threshold". *)
Definition area_gate (lib : shapely) (geometry : geometry) (polygon_threshold : Q)
  : result Geometry.geometry :=
  match geometry with
  | Polygon _ =>
      if Qle_bool polygon_threshold (area lib geometry) then Ok geometry
      else Raise (AssertionError "Input geometry is smaller than threshold.")
  | _ =>
      gs <- geoms_of geometry ;;
      make_multipolygon (filter (fun p => Qgt_bool (area lib p) polygon_threshold) gs)
  end.

(** "remove spikes", "clean geometry boundary", "remove holes". *)
Definition clean (lib : shapely) (geometry : geometry) (resolution hole_threshold : Q)
  : result Geometry.geometry :=
  let geometry := buffer lib (buffer lib (buffer lib geometry (- EPS)) (EPS * 2)) (- EPS) in
  let eps := resolution / 2 - EPS in
  let geometry := buffer lib (buffer lib (buffer lib geometry eps) (- eps * 2)) eps in
  remove_holes lib geometry hole_threshold.

Definition filter_geometry (lib : shapely) (geometry : geo_input)
  (resolution polygon_threshold hole_threshold : Q) : result Geometry.geometry :=
  geometry <- combine lib geometry ;;
  geometry <- area_gate lib geometry polygon_threshold ;;
  clean lib geometry resolution hole_threshold.

(** *** katana: how a call ends *)

Section Katana.

Variable lib : shapely.
Variable threshold : Q.

Lemma and_then_ends {A B : Type} (m : outcome A) (k : A -> outcome B) :
  (exists r, m = Some r) -> (forall a, exists r, k a = Some r) ->
  exists r, and_then m k = Some r.
Proof.
  intros [[a | x] ->] Hk; simpl; [apply Hk | eexists; reflexivity].
Qed.

Lemma extend_all_ends {A : Type} (rec : geometry -> outcome (list A)) (es : list geometry) :
  (forall e, exists r, rec e = Some r) -> exists r, extend_all rec es = Some r.
Proof.
  intros Hrec. induction es as [| e es IH]; simpl; [eexists; reflexivity |].
  destruct (is_polygonal e); [| exact IH].
  apply and_then_ends; [apply Hrec |].
  intros r. apply and_then_ends; [exact IH |].
  intros rs. eexists. reflexivity.
Qed.

Lemma for_halves_ends {A : Type} (rec : geometry -> outcome (list A))
  (g : geometry) (ds : list geometry) :
  (forall e, exists r, rec e = Some r) -> exists r, for_halves lib rec g ds = Some r.
Proof.
  intros Hrec. induction ds as [| d ds IH]; simpl; [eexists; reflexivity |].
  destruct (pieces (intersection lib g d)) as [c | x]; [| eexists; reflexivity].
  apply and_then_ends; [now apply extend_all_ends |].
  intros r. apply and_then_ends; [exact IH |].
  intros rs. eexists. reflexivity.
Qed.

(** One step of the recursion. *)
Lemma katana_step (fuel : nat) (g : geometry) (count : Z) :
  katana lib (S fuel) g threshold count =
  if Qle_bool (area lib g) threshold || (count =? 250)%Z then Some (Ok [g])
  else
    and_then
      (for_halves lib (fun e => katana lib fuel e threshold (count + 1)%Z) g
                  [fst (halves (bounds lib g)); snd (halves (bounds lib g))])
      (fun result =>
         if (0 <? count)%Z then Some (Ok result) else Some (Ok (single_parts result))).
Proof. simpl. destruct (halves (bounds lib g)); reflexivity. Qed.

(** With an allowance of [251 - count] nested calls a call ends: it returns
    or it raises. *)
Lemma katana_ends (fuel : nat) (g : geometry) (count : Z) :
  (count <= 250)%Z -> (251 - count <= Z.of_nat fuel)%Z ->
  exists r, katana lib fuel g threshold count = Some r.
Proof.
  revert g count. induction fuel as [| fuel IH]; intros g count Hc Hf; [lia |].
  rewrite katana_step.
  destruct (Qle_bool (area lib g) threshold); [eexists; reflexivity |].
  destruct (count =? 250)%Z eqn:Ec; [eexists; reflexivity |].
  apply Z.eqb_neq in Ec. cbn [orb].
  apply and_then_ends.
  - apply for_halves_ends. intros e. apply IH; lia.
  - intros result. destruct (0 <? count)%Z; eexists; reflexivity.
Qed.

(** A call that is past its two tests and whose first half meets the
    geometry in a collection raises, before any nested call. *)
Lemma katana_collection (fuel : nat) (g : geometry) (count : Z) (gs : list geometry) :
  Qle_bool (area lib g) threshold = false -> count <> 250%Z ->
  intersection lib g (fst (halves (bounds lib g))) = GeometryCollection gs ->
  katana lib (S fuel) g threshold count = Some (Raise not_iterable).
Proof.
  intros Ha Hc Hi. rewrite katana_step, Ha.
  replace (count =? 250)%Z with false by (symmetry; now apply Z.eqb_neq).
  cbn [orb for_halves]. rewrite Hi. reflexivity.
Qed.

Lemma single_parts_no_multipolygon (result : list geometry) :
  Forall (fun g => is_multipolygon g = false) (single_parts result).
Proof.
  unfold single_parts. apply Forall_forall. intros g Hin.
  apply in_flat_map in Hin. destruct Hin as [g0 [_ Hg]].
  destruct g0; simpl in Hg;
    try (destruct Hg as [<- | []]; reflexivity).
  apply in_map_iff in Hg. destruct Hg as [p [<- _]]. reflexivity.
Qed.

(** The list a top-level call on a polygon returns holds no MultiPolygon. *)
Lemma katana_top_single_parts (fuel : nat) (p : polygon) (l : list geometry) :
  katana lib fuel (Polygon p) threshold 0 = Some (Ok l) ->
  Forall (fun g => is_multipolygon g = false) l.
Proof.
  destruct fuel as [| fuel]; [discriminate |].
  rewrite katana_step.
  destruct (Qle_bool (area lib (Polygon p)) threshold); cbn [orb Z.eqb Z.ltb Z.compare].
  - intros H. injection H as <-. constructor; [reflexivity | constructor].
  - destruct (for_halves lib _ (Polygon p) _) as [[result | x] |]; simpl;
      try discriminate.
    intros H. injection H as <-. apply single_parts_no_multipolygon.
Qed.

End Katana.

(** *** A small library to run the definitions on

    Axis-parallel rectangles: areas by the shoelace formula, bounds from the
    exterior, the intersection of two bounding boxes (an empty polygon when
    they do not overlap), no change under a buffer. *)

Fixpoint shoelace (r : ring) : Q :=
  match r with
  | (x1, y1) :: (((x2, y2) :: _) as r') => x1 * y2 - x2 * y1 + shoelace r'
  | _ => 0
  end.

Definition Qabs' (q : Q) : Q := if Qle_bool 0 q then q else - q.
Definition Qmin' (a b : Q) : Q := if Qle_bool a b then a else b.
Definition Qmax' (a b : Q) : Q := if Qle_bool a b then b else a.

Definition ring_area (r : ring) : Q := Qred (Qabs' (shoelace r) / 2).

Definition polygon_area (p : polygon) : Q :=
  fold_left (fun acc r => acc - ring_area r) (interiors p) (ring_area (exterior p)).

Definition rect_area (g : geometry) : Q :=
  match g with
  | Polygon p => Qred (polygon_area p)
  | MultiPolygon ps => Qred (fold_left (fun acc p => acc + polygon_area p) ps 0)
  | _ => 0
  end.

Definition coords_bounds (cs : list (Q * Q)) : Q * Q * Q * Q :=
  match cs with
  | [] => (0, 0, 0, 0)
  | (x, y) :: cs' =>
      fold_left (fun b c => let '(x0, y0, x1, y1) := b in
                            (Qmin' x0 (fst c), Qmin' y0 (snd c),
                             Qmax' x1 (fst c), Qmax' y1 (snd c)))
                cs' (x, y, x, y)
  end.

Definition rect_bounds (g : geometry) : Q * Q * Q * Q :=
  match g with
  | Polygon p => coords_bounds (exterior p)
  | MultiPolygon ps => coords_bounds (flat_map exterior ps)
  | GeometryCollection _ => (0, 0, 0, 0)
  | OtherGeometry cs => coords_bounds cs
  end.

Definition rect_intersection (g d : geometry) : geometry :=
  let '(gx0, gy0, gx1, gy1) := rect_bounds g in
  let '(dx0, dy0, dx1, dy1) := rect_bounds d in
  let x0 := Qmax' gx0 dx0 in
  let y0 := Qmax' gy0 dy0 in
  let x1 := Qmin' gx1 dx1 in
  let y1 := Qmin' gy1 dy1 in
  if Qle_bool x1 x0 || Qle_bool y1 y0 then Polygon (mkPolygon [] [])
  else box (Qred x0) (Qred y0) (Qred x1) (Qred y1).

Definition rect_union (gs : list geometry) : geometry :=
  match gs with
  | [g] => g
  | _ => GeometryCollection gs
  end.

Definition rectangles : shapely :=
  mkShapely rect_area rect_bounds rect_intersection (fun g _ => g) rect_union.

(** A 4 by 2 rectangle cut to parts of area at most 3: two cuts, four
    parts of area 2. *)
Example katana_rectangle :
  katana rectangles 251 (box 0 0 4 2) 3 0 =
  Some (Ok [box 0 0 2 1; box 0 1 2 2; box 2 0 4 1; box 2 1 4 2]).
Proof. vm_compute. reflexivity. Qed.

(** The last loop is not reached by a call that returns at once: a
    multi-polygon under the threshold comes back whole. *)
Example katana_small_multipolygon :
  katana rectangles 251
    (MultiPolygon [mkPolygon [(1, 0); (1, 1); (0, 1); (0, 0); (1, 0)] [];
                   mkPolygon [(3, 0); (3, 1); (2, 1); (2, 0); (3, 0)] []]) 3 0 =
  Some (Ok [MultiPolygon [mkPolygon [(1, 0); (1, 1); (0, 1); (0, 0); (1, 0)] [];
                          mkPolygon [(3, 0); (3, 1); (2, 1); (2, 0); (3, 0)] []]]).
Proof. vm_compute. reflexivity. Qed.

(** An L of three unit squares.  Its upper half-box [box(0, 1, 2, 2)] meets
    it in the square above the corner and in the segment from (1, 1) to
    (2, 1), where the border of the L runs along the border of the box: the
    library answers with a collection of a polygon and a line. *)
Definition ell : polygon :=
  mkPolygon [(0, 0); (2, 0); (2, 1); (1, 1); (1, 2); (0, 2); (0, 0)] [].

Definition is_ell (g : geometry) : bool :=
  match g with
  | Polygon p => (List.length (exterior p) =? 7)%nat
  | _ => false
  end.

(** The library on the L and on rectangles: the two intersections of the L
    with the halves of its bounding box as tabled above, the rest as for
    rectangles. *)
Definition ell_intersection (g d : geometry) : geometry :=
  if is_ell g then
    let '(_, miny, _, _) := rect_bounds d in
    if Qle_bool 1 miny
    then GeometryCollection [box 0 1 1 2; OtherGeometry [(1, 1); (2, 1)]]
    else box 0 0 2 1
  else rect_intersection g d.

Definition ell_shapely : shapely :=
  mkShapely rect_area rect_bounds ell_intersection (fun g _ => g) rect_union.

(** C5. [katana] does not return its list for every polygon.  The code
    hands a [GeometryCollection] to [for e in c] as it is, to run over its
    members, and the library the module imports does not iterate a geometry:
    on the L of three unit squares with threshold 1 the lower half is cut
    into its two squares and the upper half raises [TypeError], and so does
    every call, past its two tests, whose first half meets the geometry in a
    collection.  What the claim says of the recursion holds: a top-level call
    ends within 251 nested calls, [count] from 0 to 250, by returning or by
    raising, and a list it returns for a polygon holds no MultiPolygon. *)
Theorem katana_raises_on_collection :
  katana ell_shapely 251 (Polygon ell) 1 0 = Some (Raise not_iterable) /\
  (forall lib fuel g threshold count gs,
     Qle_bool (area lib g) threshold = false -> count <> 250%Z ->
     intersection lib g (fst (halves (bounds lib g))) = GeometryCollection gs ->
     katana lib (S fuel) g threshold count = Some (Raise not_iterable)) /\
  (forall lib p threshold, exists r, katana lib 251 (Polygon p) threshold 0 = Some r) /\
  (forall lib fuel p threshold l,
     katana lib fuel (Polygon p) threshold 0 = Some (Ok l) ->
     Forall (fun g => is_multipolygon g = false) l).
Proof.
  split; [vm_compute; reflexivity |]. split; [| split].
  - intros lib fuel g threshold count gs. apply katana_collection.
  - intros lib p threshold. apply katana_ends; lia.
  - intros lib fuel p threshold l. apply katana_top_single_parts.
Qed.

(** *** remove_holes and filter_geometry *)

Lemma Qgt_bool_true (a b : Q) : Qgt_bool a b = true <-> b < a.
Proof.
  unfold Qgt_bool. rewrite negb_true_iff. split.
  - intros H. apply Qnot_le_lt. intros Hle.
    apply Qle_bool_iff in Hle. congruence.
  - intros H. destruct (Qle_bool a b) eqn:E; [| reflexivity].
    apply Qle_bool_iff in E. exfalso. exact (Qlt_not_le _ _ H E).
Qed.

Lemma polygons_of_filter (f : geometry -> bool) (ps : list polygon) :
  polygons_of (filter f (map Polygon ps)) = Ok (filter (fun p => f (Polygon p)) ps).
Proof.
  induction ps as [| p ps IH]; simpl; [reflexivity |].
  destruct (f (Polygon p)); simpl; [| exact IH].
  now rewrite IH.
Qed.

Lemma remove_holes_polygonal (lib : shapely) (g : geometry) (keep_threshold : Q) :
  is_polygonal g = true -> exists r, remove_holes lib g keep_threshold = Ok r.
Proof.
  destruct g; simpl; try discriminate; intros _; eexists; reflexivity.
Qed.


(** A square of side 5000 with a hole of area 500 and a hole of area
    2,000,000. *)
Definition small_ring : ring := [(10, 10); (60, 10); (60, 20); (10, 20); (10, 10)].
Definition large_ring : ring :=
  [(1000, 1000); (3000, 1000); (3000, 2000); (1000, 2000); (1000, 1000)].
Definition holed_square : polygon :=
  mkPolygon [(0, 0); (5000, 0); (5000, 5000); (0, 5000); (0, 0)]
            [small_ring; large_ring].


(** C6. The area gate of [filter_geometry], on the geometry the input
    unions to.  A single polygon under the polygon threshold fails the
    assertion; a single polygon at or above the threshold passes and the call
    succeeds (the library buffers a polygon or multi-polygon to a polygon or
    multi-polygon); of a multi-polygon every part under the threshold is
    dropped and every part above it is kept before the cleaning steps. *)
Theorem filter_geometry_area_gate (lib : shapely) (geometry : geo_input)
  (resolution polygon_threshold hole_threshold : Q) (g : Geometry.geometry) :
  combine lib geometry = Ok g ->
  (forall p, g = Polygon p -> area lib g < polygon_threshold ->
     filter_geometry lib geometry resolution polygon_threshold hole_threshold =
       Raise (AssertionError "Input geometry is smaller than threshold.")) /\
  (forall p, g = Polygon p -> polygon_threshold <= area lib g ->
     (forall x d, is_polygonal x = true -> is_polygonal (buffer lib x d) = true) ->
     exists r,
       filter_geometry lib geometry resolution polygon_threshold hole_threshold = Ok r) /\
  (forall ps, g = MultiPolygon ps ->
     let kept := filter (fun p => Qgt_bool (area lib (Polygon p)) polygon_threshold) ps in
     filter_geometry lib geometry resolution polygon_threshold hole_threshold =
       clean lib (MultiPolygon kept) resolution hole_threshold /\
     forall p, In p ps ->
       (area lib (Polygon p) < polygon_threshold -> ~ In p kept) /\
       (polygon_threshold < area lib (Polygon p) -> In p kept)).
Proof.
  intros Hg. unfold filter_geometry. rewrite Hg. simpl.
  split; [| split].
  - intros p -> Hlt. simpl.
    destruct (Qle_bool polygon_threshold (area lib (Polygon p))) eqn:E; [| reflexivity].
    apply Qle_bool_iff in E. exfalso. exact (Qlt_not_le _ _ Hlt E).
  - intros p -> Hle Hbuf. simpl.
    apply Qle_bool_iff in Hle. rewrite Hle.
    unfold clean. apply remove_holes_polygonal.
    repeat apply Hbuf. reflexivity.
  - intros ps ->. split.
    + simpl. unfold make_multipolygon. rewrite polygons_of_filter. reflexivity.
    + intros p Hin. split.
      * intros Hlt Hk. apply filter_In in Hk. destruct Hk as [_ Hk].
        apply Qgt_bool_true in Hk.
        exact (Qlt_irrefl _ (Qlt_trans _ _ _ Hlt Hk)).
      * intros Hlt. apply filter_In. split; [exact Hin |].
        now apply Qgt_bool_true.
Qed.

(** The documented cases: 50 square metres fails, 20,000 passes, and of the
    two parts of a multi-polygon only the large one goes on. *)
Definition field_50 : geometry := box 0 0 5 10.
Definition field_20000 : geometry := box 0 0 200 100.

Lemma filter_geometry_area_gate_witness :
  filter_geometry rectangles (Single field_50)
      CATCHMENT_RESOLUTION default_polygon_threshold default_hole_threshold =
    Raise (AssertionError "Input geometry is smaller than threshold.") /\
  (exists r,
     filter_geometry rectangles (Single field_20000)
       CATCHMENT_RESOLUTION default_polygon_threshold default_hole_threshold = Ok r).
Proof.
  split.
  - apply (proj1 (filter_geometry_area_gate rectangles (Single field_50)
             CATCHMENT_RESOLUTION default_polygon_threshold default_hole_threshold
             field_50 eq_refl)
             (mkPolygon [(5, 0); (5, 10); (0, 10); (0, 0); (5, 0)] [])).
    + reflexivity.
    + reflexivity.
  - apply (proj1 (proj2 (filter_geometry_area_gate rectangles (Single field_20000)
             CATCHMENT_RESOLUTION default_polygon_threshold default_hole_threshold
             field_20000 eq_refl))
             (mkPolygon [(200, 0); (200, 100); (0, 100); (0, 0); (200, 0)] [])).
    + reflexivity.
    + discriminate.
    + intros x d Hx. exact Hx.
Defined.

(* ------------------------------------------------------------------ *)
(** *** More of src/utils.py: the gate at the threshold, fishnet *)
(* ------------------------------------------------------------------ *)

(** X5. At the threshold itself the two branches of the area gate differ.
    Where the input unions to a multi-polygon, a part whose area equals the
    polygon threshold is dropped before the cleaning steps, with the parts
    under it; a single polygon of that very area passes the assertion. *)
Theorem area_gate_at_threshold (lib : shapely) (geometry : geo_input)
  (resolution polygon_threshold hole_threshold : Q) (ps : list polygon) (p : polygon) :
  combine lib geometry = Ok (MultiPolygon ps) ->
  In p ps ->
  area lib (Polygon p) == polygon_threshold ->
  let kept := filter (fun p => Qgt_bool (area lib (Polygon p)) polygon_threshold) ps in
  filter_geometry lib geometry resolution polygon_threshold hole_threshold =
    clean lib (MultiPolygon kept) resolution hole_threshold /\
  ~ In p kept /\
  area_gate lib (Polygon p) polygon_threshold = Ok (Polygon p).
Proof.
  intros Hg Hin Heq kept.
  assert (H1 : Qle_bool polygon_threshold (area lib (Polygon p)) = true).
  { apply Qle_bool_iff. rewrite Heq. apply Qle_refl. }
  assert (H2 : Qgt_bool (area lib (Polygon p)) polygon_threshold = false).
  { unfold Qgt_bool. apply negb_false_iff. apply Qle_bool_iff. rewrite Heq. apply Qle_refl. }
  split; [| split].
  - unfold filter_geometry. rewrite Hg. simpl.
    unfold make_multipolygon. rewrite polygons_of_filter. reflexivity.
  - unfold kept. intros Hk. apply filter_In in Hk. destruct Hk as [_ Hk]. congruence.
  - simpl. now rewrite H1.
Qed.

(** Two fields apart, of 10,000 and of 20,000 square metres. *)
Definition field_10000 : polygon :=
  mkPolygon [(100, 0); (100, 100); (0, 100); (0, 0); (100, 0)] [].
Definition field_far : polygon :=
  mkPolygon [(700, 0); (700, 100); (500, 100); (500, 0); (700, 0)] [].

Lemma area_gate_at_threshold_witness :
  filter_geometry rectangles (Single (MultiPolygon [field_10000; field_far]))
      CATCHMENT_RESOLUTION default_polygon_threshold default_hole_threshold =
    clean rectangles (MultiPolygon [field_far]) CATCHMENT_RESOLUTION default_hole_threshold /\
  area_gate rectangles (Polygon field_10000) default_polygon_threshold =
    Ok (Polygon field_10000).
Proof.
  destruct (area_gate_at_threshold rectangles (Single (MultiPolygon [field_10000; field_far]))
              CATCHMENT_RESOLUTION default_polygon_threshold default_hole_threshold
              [field_10000; field_far] field_10000) as (Hrun & _ & Hone).
  - reflexivity.
  - left. reflexivity.
  - reflexivity.
  - split; [exact Hrun | exact Hone].
Defined.

(** X6. Raising the keep threshold never opens a hole again: a ring kept
    under the higher threshold is kept under the lower one, and every kept
    ring is one of the part's own interior rings. *)
Theorem kept_interiors_monotone (lib : shapely) (k1 k2 : Q) (geom : polygon) (interior : ring) :
  k1 <= k2 ->
  In interior (kept_interiors lib k2 geom) ->
  In interior (kept_interiors lib k1 geom) /\ In interior (interiors geom).
Proof.
  intros Hle Hin. unfold kept_interiors in *.
  apply filter_In in Hin. destruct Hin as [Hin Hk].
  split; [| exact Hin]. apply filter_In. split; [exact Hin |].
  apply Qgt_bool_true. apply Qgt_bool_true in Hk.
  eapply Qle_lt_trans; eassumption.
Qed.

Lemma kept_interiors_monotone_witness :
  In large_ring (kept_interiors rectangles 400 holed_square) /\
  In large_ring (interiors holed_square).
Proof.
  apply (kept_interiors_monotone rectangles 400 1000000 holed_square large_ring).
  - discriminate.
  - apply filter_In. split; [right; left; reflexivity | reflexivity].
Defined.

(** X7. The cap is a test for [count == 250]: a call entered with a larger
    [count] is not stopped by it. Where no geometry meets the threshold and
    every intersection with a box is polygonal, such a call never returns,
    whatever the allowance. *)
Theorem katana_above_cap (lib : shapely) (threshold : Q) :
  (forall g, Qle_bool (area lib g) threshold = false) ->
  (forall g minx miny maxx maxy,
     is_polygonal (intersection lib g (box minx miny maxx maxy)) = true) ->
  forall fuel g count, (250 < count)%Z -> katana lib fuel g threshold count = None.
Proof.
  intros Harea Hpoly. induction fuel as [| fuel IH]; intros g count Hc; [reflexivity |].
  simpl. rewrite Harea.
  replace (count =? 250)%Z with false by (symmetry; apply Z.eqb_neq; lia). simpl.
  unfold halves. destruct (bounds lib g) as [[[minx miny] maxx] maxy].
  destruct (Qle_bool (maxx - minx) (maxy - miny)).
  - specialize (Hpoly g minx miny maxx (miny + (maxy - miny) / 2)).
    simpl.
    destruct (intersection lib g (box minx miny maxx (miny + (maxy - miny) / 2)))
      as [p | ps | gs | cs]; try discriminate Hpoly; simpl; rewrite IH by lia; reflexivity.
  - specialize (Hpoly g minx miny (minx + (maxx - minx) / 2) maxy).
    simpl.
    destruct (intersection lib g (box minx miny (minx + (maxx - minx) / 2) maxy))
      as [p | ps | gs | cs]; try discriminate Hpoly; simpl; rewrite IH by lia; reflexivity.
Qed.

(** A library in which nothing gets smaller. *)
Definition stubborn : shapely :=
  mkShapely (fun _ => 1) rect_bounds (fun _ d => d) (fun g _ => g) rect_union.

Lemma katana_above_cap_witness :
  katana stubborn 1000 (box 0 0 4 2) 0 251 = None.
Proof.
  apply (katana_above_cap stubborn 0).
  - intros g. reflexivity.
  - intros g minx miny maxx maxy. reflexivity.
  - lia.
Defined.

(** *** fishnet *)

(** [range(a, b)] *)
Definition zrange (a b : Z) : list Z :=
  map (fun k => (a + Z.of_nat k)%Z) (seq 0 (Z.to_nat (b - a))).

(** What [fishnet] does: the list of parts, the [ZeroDivisionError] of a
    floor division by zero, or the [ValueError] of [int] on a NaN. *)
Inductive fishnet_result : Type :=
| Parts (result : list geometry)
| ZeroDivisionError
| NanValueError.

(** The cell of the grid at column [i] and row [j]. *)
Definition cell (threshold : Q) (i j : Z) : geometry :=
  box (inject_Z i * threshold) (inject_Z j * threshold)
      (inject_Z (i + 1) * threshold) (inject_Z (j + 1) * threshold).

(** [fishnet(geometry, threshold)]; [is_empty] is the library's test.  The
    bounds of an empty geometry are four NaN: the floor division by a
    threshold that is not zero gives NaN again, and [int] refuses it; by zero
    it raises before. *)
Definition fishnet (lib : shapely) (is_empty : geometry -> bool)
  (geometry : geometry) (threshold : Q) : fishnet_result :=
  let '(minx, miny, maxx, maxy) := bounds lib geometry in
  if Qeq_bool threshold 0 then ZeroDivisionError
  else if is_empty geometry then NanValueError
  else
    let xmin := Qfloor (minx / threshold) in
    let xmax := Qfloor (maxx / threshold) in
    let ymin := Qfloor (miny / threshold) in
    let ymax := Qfloor (maxy / threshold) in
    Parts (flat_map (fun i =>
             flat_map (fun j =>
               let g := intersection lib geometry (cell threshold i j) in
               if is_empty g then [] else [g])
               (zrange ymin (ymax + 1)))
             (zrange xmin (xmax + 1))).

Lemma In_zrange (x a b : Z) : In x (zrange a b) <-> (a <= x < b)%Z.
Proof.
  unfold zrange. rewrite in_map_iff. split.
  - intros [k [<- Hk]]. apply in_seq in Hk. lia.
  - intros H. exists (Z.to_nat (x - a)). split; [lia |].
    apply in_seq. lia.
Qed.

Lemma length_zrange (a b : Z) : List.length (zrange a b) = Z.to_nat (b - a).
Proof. unfold zrange. now rewrite length_map, length_seq. Qed.

Lemma length_flat_map_le {A B : Type} (f : A -> list B) (l : list A) (n : nat) :
  (forall x, List.length (f x) <= n)%nat ->
  (List.length (flat_map f l) <= List.length l * n)%nat.
Proof.
  intros Hf. induction l as [| x l IH]; simpl; [lia |].
  rewrite length_app. specialize (Hf x). lia.
Qed.

(** X8. [fishnet] has three ends.  With a zero side it raises
    [ZeroDivisionError], on an empty geometry too; with another side an empty
    geometry raises [ValueError]; on a geometry that is not empty it returns,
    and what it returns are the intersections of the geometry with the cells
    of columns [floor(minx/t)] to [floor(maxx/t)] and rows [floor(miny/t)] to
    [floor(maxy/t)] that are not empty: no part is empty, and there are at
    most as many parts as cells. *)
Theorem fishnet_cells (lib : shapely) (is_empty : geometry -> bool)
  (geometry : Geometry.geometry) (threshold : Q) :
  (threshold == 0 -> fishnet lib is_empty geometry threshold = ZeroDivisionError) /\
  (~ threshold == 0 -> is_empty geometry = true ->
   fishnet lib is_empty geometry threshold = NanValueError) /\
  (~ threshold == 0 -> is_empty geometry = false ->
   exists result,
     fishnet lib is_empty geometry threshold = Parts result /\
     let '(minx, miny, maxx, maxy) := bounds lib geometry in
     let xmin := Qfloor (minx / threshold) in
     let xmax := Qfloor (maxx / threshold) in
     let ymin := Qfloor (miny / threshold) in
     let ymax := Qfloor (maxy / threshold) in
     (forall g, In g result <->
        exists i j, (xmin <= i <= xmax)%Z /\ (ymin <= j <= ymax)%Z /\
                    g = intersection lib geometry (cell threshold i j) /\
                    is_empty g = false) /\
     (forall g, In g result -> is_empty g = false) /\
     (List.length result <= Z.to_nat (xmax + 1 - xmin) * Z.to_nat (ymax + 1 - ymin))%nat).
Proof.
  unfold fishnet. destruct (bounds lib geometry) as [[[minx miny] maxx] maxy].
  split; [| split].
  - intros H. apply Qeq_bool_iff in H. now rewrite H.
  - intros H He. destruct (Qeq_bool threshold 0) eqn:E;
      [apply Qeq_bool_iff in E; contradiction |].
    now rewrite He.
  - intros H He. destruct (Qeq_bool threshold 0) eqn:E;
      [apply Qeq_bool_iff in E; contradiction |].
    rewrite He.
    eexists. split; [reflexivity |].
    assert (Hin : forall g,
              In g (flat_map (fun i =>
                      flat_map (fun j =>
                        let g := intersection lib geometry (cell threshold i j) in
                        if is_empty g then [] else [g])
                        (zrange (Qfloor (miny / threshold)) (Qfloor (maxy / threshold) + 1)))
                      (zrange (Qfloor (minx / threshold)) (Qfloor (maxx / threshold) + 1))) <->
              exists i j,
                (Qfloor (minx / threshold) <= i <= Qfloor (maxx / threshold))%Z /\
                (Qfloor (miny / threshold) <= j <= Qfloor (maxy / threshold))%Z /\
                g = intersection lib geometry (cell threshold i j) /\
                is_empty g = false).
    { intros g. rewrite in_flat_map. split.
      - intros [i [Hi Hg]]. apply in_flat_map in Hg. destruct Hg as [j [Hj Hg]].
        apply In_zrange in Hi. apply In_zrange in Hj. cbv zeta in Hg.
        destruct (is_empty (intersection lib geometry (cell threshold i j))) eqn:Ee;
          [destruct Hg |].
        destruct Hg as [<- | []].
        exists i, j. repeat split; try lia. exact Ee.
      - intros [i [j [Hi [Hj [-> Hne]]]]].
        exists i. split; [apply In_zrange; lia |].
        apply in_flat_map. exists j. split; [apply In_zrange; lia |].
        cbv zeta. rewrite Hne. now left. }
    split; [exact Hin | split].
    + intros g Hg. apply Hin in Hg. destruct Hg as (i & j & _ & _ & _ & Hne). exact Hne.
    + eapply Nat.le_trans.
      * apply (length_flat_map_le _ _ (Z.to_nat (Qfloor (maxy / threshold) + 1
                                               - Qfloor (miny / threshold)))).
        intros i. eapply Nat.le_trans.
        -- apply (length_flat_map_le _ _ 1%nat).
           intros j. cbv zeta.
           destruct (is_empty (intersection lib geometry (cell threshold i j))); simpl; lia.
        -- rewrite length_zrange. lia.
      * rewrite length_zrange. lia.
Qed.

(** The library's test on the rectangles above. *)
Definition rect_is_empty (g : geometry) : bool :=
  match g with
  | Polygon p => match exterior p with [] => true | _ :: _ => false end
  | _ => false
  end.

(** A 4 by 2 rectangle on a grid of side 2: two cells in the first row,
    and the cells that only touch its border give nothing. *)
Example fishnet_rectangle :
  fishnet rectangles rect_is_empty (box 0 0 4 2) 2 = Parts [box 0 0 2 2; box 2 0 4 2].
Proof. vm_compute. reflexivity. Qed.

End Geometry.

(* ================================================================== *)
(** ** src/datasets.py: the Dataset upsert of the crawler *)
(* ================================================================== *)

Module Datasets.

(** A crawled item ([DatasetItem]). *)
Record DatasetItem : Type := mkItem {
  item_dataset_url : string;
  item_file_urls : list string;
  item_name : string;
  item_describe : string;
  item_survey_start_date : string;
  item_survey_end_date : string;
  item_point_cloud_density : string;
  item_meta_path : string;
  item_extent_path : string;
  item_tile_path : string;
  item_datum : string
}.

(** A row of the [dataset] table, in the column order of the insert.  The
    two columns the upsert copies from the rows it read can come out without
    a value (NaN in the frame, NULL in the table). *)
Record row : Type := mkRow {
  id : option Z;
  name : string;
  describe : string;
  survey_start_date : string;
  survey_end_date : string;
  point_cloud_density : string;
  original_datum : string;
  meta_path : string;
  meta_source : string;
  extent_path : string;
  tile_path : string;
  geometry : Geometry.geometry;
  created_at : option string;
  updated_at : string
}.

(** [SELECT * FROM dataset WHERE name = '...']. *)
Definition select_by_name (n : string) (table : list row) : list row :=
  filter (fun r => String.eqb (name r) n) table.

(** The ids the table holds. *)
Definition ids (table : list row) : list Z :=
  flat_map (fun r => match id r with Some i => [i] | None => [] end) table.

(** Modelled from the spec: [get_max_value] of src/tables.py, "retrieval of
    the maximum surrogate id in a table (for id allocation)"; a table without
    an id has none. *)
Definition get_max_value (table : list row) : option Z :=
  match ids table with
  | [] => None
  | i :: rest => Some (fold_left Z.max rest i)
  end.

(** Modelled from the spec: [delete_table] of src/tables.py, "table
    deletion by matching a column value", here on the column [name]. *)
Definition delete_table (n : string) (table : list row) : list row :=
  filter (fun r => negb (String.eqb (name r) n)) table.

(** One row of the frame built from the item ([gdf_to_db]): the fields of
    the item in every row, one geometry of the extent file per row. *)
Definition frame (item : DatasetItem) (source : string) (extent : Geometry.geometry)
  (timestamp : string) (new_id : option Z) (created : option string) : row :=
  {| id := new_id;
     name := item_name item;
     describe := item_describe item;
     survey_start_date := item_survey_start_date item;
     survey_end_date := item_survey_end_date item;
     point_cloud_density := item_point_cloud_density item;
     original_datum := item_datum item;
     meta_path := item_meta_path item;
     meta_source := source;
     extent_path := item_extent_path item;
     tile_path := item_tile_path item;
     geometry := extent;
     created_at := created;
     updated_at := timestamp |}.

(** [gdf_to_db['id'] = _id + 1 if _id else 1]: one value for every row of
    the frame. *)
Definition with_new_id (item : DatasetItem) (source timestamp : string) (new_id : Z)
  (extents : list Geometry.geometry) : list row :=
  map (fun extent => frame item source extent timestamp (Some new_id) (Some timestamp))
      extents.

(** [gdf_to_db['id'] = gdf_from_db['id'].copy()] and the same for
    [created_at]: a column is assigned by index, so the i-th row of the frame
    takes the values of the i-th row read, and a row of the frame beyond the
    rows read is left without. *)
Fixpoint aligned (item : DatasetItem) (source timestamp : string)
  (extents : list Geometry.geometry) (gdf_from_db : list row) : list row :=
  match extents with
  | [] => []
  | extent :: extents' =>
      match gdf_from_db with
      | r :: rest =>
          frame item source extent timestamp (id r) (created_at r)
          :: aligned item source timestamp extents' rest
      | [] =>
          frame item source extent timestamp None None
          :: aligned item source timestamp extents' []
      end
  end.

(** [gdf_to_db.to_postgis('dataset', engine, index=False, if_exists="append")]:
    the database takes the rows or raises; [refused] is its answer. *)
Definition to_postgis (refused : list row -> list row -> option exn)
  (table gdf_to_db : list row) : result unit * list row :=
  match refused table gdf_to_db with
  | Some e => (Raise e, table)
  | None => (Ok tt, (table ++ gdf_to_db)%list)
  end.

(** [item_completed]: the table before, the table after.
    [get_extent_geometry] reads the geometries of the extent file and
    [timestamp] is the clock at the call.  The rows of the name are deleted
    before the insert, and nothing brings them back when the insert raises. *)
Definition item_completed (get_extent_geometry : string -> result (list Geometry.geometry))
  (refused : list row -> list row -> option exn)
  (timestamp : string) (table : list row) (item : DatasetItem)
  : result DatasetItem * list row :=
  match item_file_urls item with
  | [] => (Raise (IndexError "list index out of range"), table)
  | source :: _ =>
      match get_extent_geometry (item_extent_path item) with
      | Raise e => (Raise e, table)
      | Ok extents =>
          let gdf_from_db := select_by_name (item_name item) table in
          let '(table, gdf_to_db) :=
            match gdf_from_db with
            | [] =>
                let new_id := match get_max_value table with
                              | Some _id => if _id =? 0 then 1 else _id + 1
                              | None => 1
                              end in
                (table, with_new_id item source timestamp new_id extents)
            | _ :: _ =>
                (delete_table (item_name item) table,
                 aligned item source timestamp extents gdf_from_db)
            end in
          match to_postgis refused table gdf_to_db with
          | (Raise e, table) => (Raise e, table)
          | (Ok _, table) => (Ok item, table)
          end
      end
  end.


Lemma select_delete (n : string) (table : list row) :
  select_by_name n (delete_table n table) = [].
Proof.
  unfold select_by_name, delete_table.
  induction table as [| r table IH]; simpl; [reflexivity |].
  destruct (String.eqb (name r) n) eqn:E; simpl; [exact IH |].
  rewrite E. exact IH.
Qed.

Lemma select_app (n : string) (t1 t2 : list row) :
  select_by_name n (t1 ++ t2) = (select_by_name n t1 ++ select_by_name n t2)%list.
Proof. apply filter_app. Qed.


Lemma delete_idem (n : string) (table : list row) :
  delete_table n (delete_table n table) = delete_table n table.
Proof.
  unfold delete_table. induction table as [| r table IH]; simpl; [reflexivity |].
  destruct (String.eqb (name r) n) eqn:E; simpl; [exact IH |].
  rewrite E. simpl. now rewrite IH.
Qed.

(** A name without a row: deleting it changes nothing. *)
Lemma delete_absent (n : string) (table : list row) :
  select_by_name n table = [] -> delete_table n table = table.
Proof.
  unfold select_by_name, delete_table.
  induction table as [| r table IH]; simpl; [reflexivity |].
  destruct (String.eqb (name r) n); simpl; [discriminate |].
  intros H. now rewrite IH.
Qed.

(** Every row of a frame carries the name of the item. *)
Lemma select_with_new_id (item : DatasetItem) (source timestamp : string) (new_id : Z)
  (extents : list Geometry.geometry) :
  select_by_name (item_name item) (with_new_id item source timestamp new_id extents) =
  with_new_id item source timestamp new_id extents.
Proof.
  unfold select_by_name, with_new_id.
  induction extents as [| g gs IH]; simpl; [reflexivity |].
  now rewrite String.eqb_refl, IH.
Qed.

Lemma select_aligned (item : DatasetItem) (source timestamp : string)
  (extents : list Geometry.geometry) (gdf_from_db : list row) :
  select_by_name (item_name item) (aligned item source timestamp extents gdf_from_db) =
  aligned item source timestamp extents gdf_from_db.
Proof.
  unfold select_by_name. revert gdf_from_db.
  induction extents as [| g gs IH]; intros [| r rest]; simpl; try reflexivity;
    now rewrite String.eqb_refl, IH.
Qed.

Lemma delete_with_new_id (item : DatasetItem) (source timestamp : string) (new_id : Z)
  (extents : list Geometry.geometry) :
  delete_table (item_name item) (with_new_id item source timestamp new_id extents) = [].
Proof.
  unfold delete_table, with_new_id.
  induction extents as [| g gs IH]; simpl; [reflexivity |].
  now rewrite String.eqb_refl.
Qed.

Lemma delete_aligned (item : DatasetItem) (source timestamp : string)
  (extents : list Geometry.geometry) (gdf_from_db : list row) :
  delete_table (item_name item) (aligned item source timestamp extents gdf_from_db) = [].
Proof.
  unfold delete_table. revert gdf_from_db.
  induction extents as [| g gs IH]; intros [| r rest]; simpl; try reflexivity;
    rewrite String.eqb_refl; simpl; apply IH.
Qed.

Lemma length_aligned (item : DatasetItem) (source timestamp : string)
  (extents : list Geometry.geometry) (gdf_from_db : list row) :
  List.length (aligned item source timestamp extents gdf_from_db) = List.length extents.
Proof.
  revert gdf_from_db. induction extents as [| g gs IH]; intros [| r rest]; simpl;
    try reflexivity; now rewrite IH.
Qed.




Lemma fold_max_le (l : list Z) (a : Z) :
  a <= fold_left Z.max l a /\ forall x, In x l -> x <= fold_left Z.max l a.
Proof.
  revert a. induction l as [| y l IH]; intros a; simpl.
  - split; [lia | tauto].
  - destruct (IH (Z.max a y)) as [H1 H2]. split; [lia |].
    intros x [<- | Hx]; [lia | now apply H2].
Qed.

Lemma fold_max_In (l : list Z) (a : Z) :
  fold_left Z.max l a = a \/ In (fold_left Z.max l a) l.
Proof.
  revert a. induction l as [| y l IH]; intros a; simpl; [now left |].
  destruct (IH (Z.max a y)) as [H | H]; [| now right; right].
  rewrite H. destruct (Z.max_spec a y) as [[_ ->] | [_ ->]]; auto.
Qed.

Lemma In_ids (i : Z) (table : list row) :
  In i (ids table) <-> exists r, In r table /\ id r = Some i.
Proof.
  unfold ids. rewrite in_flat_map. split.
  - intros [r [Hr Hi]]. exists r. split; [exact Hr |].
    destruct (id r) as [j |]; [| destruct Hi]. destruct Hi as [-> | []]. reflexivity.
  - intros [r [Hr Hi]]. exists r. split; [exact Hr |]. rewrite Hi. now left.
Qed.

(** The modelled [get_max_value] is the greatest id of the table, and it
    has none exactly when no row has an id. *)
Lemma get_max_value_greatest (table : list row) (m : Z) :
  get_max_value table = Some m ->
  (forall r i, In r table -> id r = Some i -> i <= m) /\
  (exists r, In r table /\ id r = Some m).
Proof.
  unfold get_max_value. destruct (ids table) as [| i0 rest] eqn:E; [discriminate |].
  intros H. injection H as <-.
  destruct (fold_max_le rest i0) as [H1 H2]. split.
  - intros r i Hr Hi.
    assert (Hin : In i (ids table)) by (apply In_ids; eauto).
    rewrite E in Hin. destruct Hin as [<- | Hin]; [exact H1 | now apply H2].
  - apply In_ids. rewrite E.
    destruct (fold_max_In rest i0) as [-> | H]; [now left | now right].
Qed.

Lemma get_max_value_none (table : list row) :
  get_max_value table = None -> forall r, In r table -> id r = None.
Proof.
  unfold get_max_value. destruct (ids table) as [| i0 rest] eqn:E; [| discriminate].
  intros _ r Hr. destruct (id r) as [i |] eqn:Hi; [| reflexivity].
  assert (Hin : In i (ids table)) by (apply In_ids; eauto).
  rewrite E in Hin. destruct Hin.
Qed.

(** The id a new name gets. *)
Definition allocated (table : list row) : Z :=
  match get_max_value table with
  | Some _id => if _id =? 0 then 1 else _id + 1
  | None => 1
  end.

(** An upsert of an item with one geometry that returns: the table it
    leaves. *)
Lemma item_completed_one (get_extent_geometry : string -> result (list Geometry.geometry))
  (refused : list row -> list row -> option exn)
  (timestamp : string) (table : list row) (item : DatasetItem)
  (source : string) (urls : list string) (extent : Geometry.geometry) :
  item_file_urls item = source :: urls ->
  get_extent_geometry (item_extent_path item) = Ok [extent] ->
  fst (item_completed get_extent_geometry refused timestamp table item) = Ok item ->
  exists new_id created,
    snd (item_completed get_extent_geometry refused timestamp table item) =
      (delete_table (item_name item) table ++
       [frame item source extent timestamp new_id created])%list /\
    (forall from_db rest, select_by_name (item_name item) table = from_db :: rest ->
       new_id = id from_db /\ created = created_at from_db) /\
    (select_by_name (item_name item) table = [] ->
       new_id = Some (allocated table) /\ created = Some timestamp).
Proof.
  intros Hurls Hext. unfold item_completed. rewrite Hurls, Hext.
  destruct (select_by_name (item_name item) table) as [| from_db rest] eqn:Esel;
    cbv zeta iota beta; unfold to_postgis.
  - destruct (refused _ _); simpl; [discriminate |]. intros _.
    exists (Some (allocated table)), (Some timestamp). split; [| split].
    + rewrite (delete_absent _ _ Esel). reflexivity.
    + discriminate.
    + intros _. split; reflexivity.
  - destruct (refused _ _); simpl; [discriminate |]. intros _.
    exists (id from_db), (created_at from_db). split; [reflexivity | split].
    + intros r0 rest0 H. injection H as <- <-. split; reflexivity.
    + discriminate.
Qed.

Lemma select_frame (item : DatasetItem) (source : string) (extent : Geometry.geometry)
  (timestamp : string) (new_id : option Z) (created : option string) :
  select_by_name (item_name item) [frame item source extent timestamp new_id created] =
  [frame item source extent timestamp new_id created].
Proof.
  unfold select_by_name. simpl. now rewrite String.eqb_refl.
Qed.




(** Two crawls of the same survey: the second keeps id 3 and the first
    creation time; a first crawl into an empty table gets id 1. *)
Definition extent_of (path : string) : result (list Geometry.geometry) :=
  Ok [Geometry.box 0 0 1 1].

(** A database that takes every insert, and one that refuses every insert. *)
Definition accepting (table gdf_to_db : list row) : option exn := None.

Definition whope : DatasetItem :=
  mkItem "https://portal.opentopography.org/datasetMetadata?otCollectionID=OT.1"
         ["https://portal.opentopography.org/meta?format=xml"]
         "NZ10_WHope" "West Hope 2010" "2010-03-01" "2010-04-01" "2.1"
         "lidar/NZ10_WHope/NZ10_WHope_Meta.xml" "lidar/NZ10_WHope/NZ10_WHope_Extent.kml"
         "lidar/NZ10_WHope/NZ10_WHope_TileIndex.zip" "NZVD2016".





(* ------------------------------------------------------------------ *)
(** *** More of src/datasets.py *)
(* ------------------------------------------------------------------ *)

(** X9. Crawling the same dataset name twice, each time with an extent file
    of one geometry and an insert the database takes: after the second upsert
    the table has exactly one row of that name; its [id] and [created_at] are
    the ones the first upsert left (the time of the first call when the name
    was new), every other field is the one of the second crawl and it is
    updated at the second call. *)
Theorem item_completed_twice
  (get_extent_geometry : string -> result (list Geometry.geometry))
  (refused : list row -> list row -> option exn)
  (t1 t2 : string) (table : list row) (item1 item2 : DatasetItem)
  (source1 source2 : string) (urls1 urls2 : list string)
  (extent1 extent2 : Geometry.geometry) :
  item_name item2 = item_name item1 ->
  item_file_urls item1 = source1 :: urls1 ->
  item_file_urls item2 = source2 :: urls2 ->
  get_extent_geometry (item_extent_path item1) = Ok [extent1] ->
  get_extent_geometry (item_extent_path item2) = Ok [extent2] ->
  let after1 := snd (item_completed get_extent_geometry refused t1 table item1) in
  fst (item_completed get_extent_geometry refused t1 table item1) = Ok item1 ->
  fst (item_completed get_extent_geometry refused t2 after1 item2) = Ok item2 ->
  exists first second,
    select_by_name (item_name item1) after1 = [first] /\
    select_by_name (item_name item1)
      (snd (item_completed get_extent_geometry refused t2 after1 item2)) = [second] /\
    id second = id first /\
    created_at second = created_at first /\
    (select_by_name (item_name item1) table = [] -> created_at second = Some t1) /\
    describe second = item_describe item2 /\
    survey_start_date second = item_survey_start_date item2 /\
    survey_end_date second = item_survey_end_date item2 /\
    point_cloud_density second = item_point_cloud_density item2 /\
    original_datum second = item_datum item2 /\
    meta_path second = item_meta_path item2 /\
    meta_source second = source2 /\
    extent_path second = item_extent_path item2 /\
    tile_path second = item_tile_path item2 /\
    geometry second = extent2 /\
    updated_at second = t2.
Proof.
  intros Hname Hu1 Hu2 He1 He2 after1 Hok1 Hok2.
  destruct (item_completed_one get_extent_geometry refused t1 table item1 source1 urls1
              extent1 Hu1 He1 Hok1) as (id1 & c1 & Hrun1 & _ & Hnew1).
  fold after1 in Hrun1.
  assert (Hsel1 : select_by_name (item_name item1) after1 =
                  [frame item1 source1 extent1 t1 id1 c1]).
  { rewrite Hrun1, select_app, select_delete, select_frame. reflexivity. }
  destruct (item_completed_one get_extent_geometry refused t2 after1 item2 source2 urls2
              extent2 Hu2 He2 Hok2) as (id2 & c2 & Hrun2 & Hold2 & _).
  rewrite Hname in Hold2. destruct (Hold2 _ _ Hsel1) as [-> ->].
  exists (frame item1 source1 extent1 t1 id1 c1).
  exists (frame item2 source2 extent2 t2 id1 c1).
  split; [exact Hsel1 |]. split.
  - rewrite Hrun2, <- Hname, select_app, select_delete, select_frame. reflexivity.
  - simpl. split; [reflexivity |]. split; [reflexivity |]. split.
    + intros Hsel. now destruct (Hnew1 Hsel) as [_ ->].
    + repeat split.
Qed.

Lemma item_completed_twice_witness :
  exists first second,
    select_by_name "NZ10_WHope"
      (snd (item_completed extent_of accepting "2023-05-01 10:00:00" [] whope)) = [first] /\
    select_by_name "NZ10_WHope"
      (snd (item_completed extent_of accepting "2024-02-02 09:30:00"
              (snd (item_completed extent_of accepting "2023-05-01 10:00:00" [] whope))
              whope)) = [second] /\
    id second = id first /\
    created_at second = Some "2023-05-01 10:00:00" /\
    updated_at second = "2024-02-02 09:30:00".
Proof.
  destruct (item_completed_twice extent_of accepting "2023-05-01 10:00:00"
              "2024-02-02 09:30:00" [] whope whope
              "https://portal.opentopography.org/meta?format=xml"
              "https://portal.opentopography.org/meta?format=xml" [] []
              (Geometry.box 0 0 1 1) (Geometry.box 0 0 1 1)
              eq_refl eq_refl eq_refl eq_refl eq_refl eq_refl eq_refl)
    as (first & second & H1 & H2 & Hid & _ & Hc & Hrest).
  exists first, second. split; [exact H1 |]. split; [exact H2 |].
  split; [exact Hid |]. split; [exact (Hc eq_refl) |].
  destruct Hrest as (_ & _ & _ & _ & _ & _ & _ & _ & _ & _ & Hup). exact Hup.
Defined.

Lemma NoDup_map_eq {A B : Type} (f : A -> B) (l : list A) (x y : A) :
  NoDup (map f l) -> In x l -> In y l -> f x = f y -> x = y.
Proof.
  induction l as [| a l IH]; simpl; [tauto |].
  intros Hnd Hx Hy Heq. inversion Hnd as [| b bs Hb Hbs]; subst.
  destruct Hx as [-> | Hx], Hy as [-> | Hy].
  - reflexivity.
  - exfalso. apply Hb. rewrite Heq. now apply in_map.
  - exfalso. apply Hb. rewrite <- Heq. now apply in_map.
  - now apply IH.
Qed.

Lemma delete_table_ids (n : string) (table : list row) :
  NoDup (map id table) -> NoDup (map id (delete_table n table)).
Proof.
  unfold delete_table. induction table as [| r table IH]; simpl; intros H; [constructor |].
  inversion H as [| x xs Hx Hxs]; subst.
  destruct (negb (String.eqb (name r) n)); simpl; [| now apply IH].
  constructor; [| now apply IH].
  intros Hin. apply Hx. apply in_map_iff in Hin. destruct Hin as [r' [Hid Hr']].
  apply filter_In in Hr'. apply in_map_iff. exists r'. tauto.
Qed.

(** The id of a new name is in no row of the table. *)
Lemma allocated_fresh (table : list row) :
  ~ In (Some (allocated table)) (map id table).
Proof.
  intros Hin. apply in_map_iff in Hin. destruct Hin as [r [Hid Hr]].
  unfold allocated in Hid.
  destruct (get_max_value table) as [m |] eqn:Em.
  - destruct (get_max_value_greatest table m Em) as [Hle _].
    specialize (Hle r _ Hr Hid).
    destruct (m =? 0) eqn:E; [apply Z.eqb_eq in E |]; lia.
  - rewrite (get_max_value_none table Em r Hr) in Hid. discriminate.
Qed.

(** X10. The ids under an upsert.  With an extent file of at most one
    geometry, ids that were distinct stay distinct, however the call ends:
    the row added takes over the id of the rows it replaces, or an id greater
    than every id of the table.  With an extent file of two or more
    geometries and a new name, an insert the database takes leaves rows that
    share one id. *)
Theorem item_completed_ids_distinct
  (get_extent_geometry : string -> result (list Geometry.geometry))
  (refused : list row -> list row -> option exn)
  (timestamp : string) (table : list row) (item : DatasetItem) :
  let after := snd (item_completed get_extent_geometry refused timestamp table item) in
  ((forall extents, get_extent_geometry (item_extent_path item) = Ok extents ->
      (List.length extents <= 1)%nat) ->
   NoDup (map id table) -> NoDup (map id after)) /\
  (forall g1 g2 extents,
     get_extent_geometry (item_extent_path item) = Ok (g1 :: g2 :: extents) ->
     select_by_name (item_name item) table = [] ->
     fst (item_completed get_extent_geometry refused timestamp table item) = Ok item ->
     ~ NoDup (map id after)).
Proof.
  cbv zeta. unfold item_completed. split.
  - intros Hone Hnd.
    destruct (item_file_urls item) as [| source urls]; [exact Hnd |].
    destruct (get_extent_geometry (item_extent_path item)) as [extents | e];
      [| exact Hnd].
    specialize (Hone extents eq_refl).
    destruct (select_by_name (item_name item) table) as [| from_db rest] eqn:Esel;
      cbv zeta iota beta; unfold to_postgis.
    + destruct (refused _ _); simpl; [exact Hnd |].
      fold (allocated table).
      destruct extents as [| g [| g' gs]]; simpl in Hone; [| | lia].
      * simpl. now rewrite app_nil_r.
      * rewrite map_app. simpl.
        apply NoDup_app; [exact Hnd | constructor; [intros [] | constructor] |].
        intros x Hx [<- | []]. exact (allocated_fresh table Hx).
    + destruct (refused _ _); simpl; [now apply delete_table_ids |].
      destruct extents as [| g [| g' gs]]; simpl in Hone; [| | lia].
      * simpl. rewrite app_nil_r. now apply delete_table_ids.
      * rewrite map_app. simpl.
        apply NoDup_app;
          [now apply delete_table_ids | constructor; [intros [] | constructor] |].
        intros x Hx [<- | []].
        apply in_map_iff in Hx. destruct Hx as [r [Hid Hr]].
        unfold delete_table in Hr. apply filter_In in Hr. destruct Hr as [Hr Hne].
        assert (Hf : In from_db (select_by_name (item_name item) table)).
        { rewrite Esel. now left. }
        unfold select_by_name in Hf. apply filter_In in Hf. destruct Hf as [Hf Hn].
        assert (r = from_db) by (eapply NoDup_map_eq; eauto). subst r.
        rewrite Hn in Hne. discriminate.
  - intros g1 g2 extents Hext Hsel. rewrite Hext, Hsel.
    destruct (item_file_urls item) as [| source urls]; [discriminate |].
    cbv zeta iota beta. unfold to_postgis.
    destruct (refused _ _); simpl; [discriminate |].
    intros _ Hnd. rewrite map_app in Hnd. simpl in Hnd.
    apply NoDup_remove_2 in Hnd. apply Hnd.
    apply in_or_app. right. now left.
Qed.

(** X11. What a failing upsert leaves.  With no file url the call raises
    [IndexError], with an extent file that cannot be read it raises what the
    reader raised, and the table is as it was.  When the database refuses the
    insert the call raises what the database raised, after the rows of the
    name were deleted: a name that had rows has none left.  However the call
    fails, the rows of the other names are as they were. *)
Theorem item_completed_failure
  (get_extent_geometry : string -> result (list Geometry.geometry))
  (refused : list row -> list row -> option exn)
  (timestamp : string) (table : list row) (item : DatasetItem) :
  let after := snd (item_completed get_extent_geometry refused timestamp table item) in
  (item_file_urls item = [] ->
   (exists msg, fst (item_completed get_extent_geometry refused timestamp table item) =
                Raise (IndexError msg)) /\ after = table) /\
  (forall e, item_file_urls item <> [] ->
             get_extent_geometry (item_extent_path item) = Raise e ->
             fst (item_completed get_extent_geometry refused timestamp table item) = Raise e /\
             after = table) /\
  (forall source urls extents e,
     item_file_urls item = source :: urls ->
     get_extent_geometry (item_extent_path item) = Ok extents ->
     select_by_name (item_name item) table <> [] ->
     refused (delete_table (item_name item) table)
             (aligned item source timestamp extents
                      (select_by_name (item_name item) table)) = Some e ->
     fst (item_completed get_extent_geometry refused timestamp table item) = Raise e /\
     after = delete_table (item_name item) table /\
     select_by_name (item_name item) after = []) /\
  (forall e, fst (item_completed get_extent_geometry refused timestamp table item) = Raise e ->
             (after = table \/ after = delete_table (item_name item) table) /\
             delete_table (item_name item) after = delete_table (item_name item) table).
Proof.
  cbv zeta. unfold item_completed. split; [| split; [| split]].
  - intros H. rewrite H. split; [eexists |]; reflexivity.
  - intros e Hu He. destruct (item_file_urls item); [contradiction |]. now rewrite He.
  - intros source urls extents e Hu He Hsel Href. rewrite Hu, He.
    destruct (select_by_name (item_name item) table) as [| from_db rest] eqn:Esel;
      [contradiction |].
    cbv zeta iota beta. unfold to_postgis. rewrite Href. simpl.
    split; [reflexivity |]. split; [reflexivity |]. apply select_delete.
  - intros e.
    destruct (item_file_urls item) as [| source urls]; [intros _; now split; [left |] |].
    destruct (get_extent_geometry (item_extent_path item)) as [extents | x];
      [| intros _; now split; [left |]].
    destruct (select_by_name (item_name item) table) as [| from_db rest] eqn:Esel;
      cbv zeta iota beta; unfold to_postgis.
    + destruct (refused _ _); simpl; [| discriminate].
      intros _. now split; [left |].
    + destruct (refused _ _); simpl; [| discriminate].
      intros _. split; [now right | apply delete_idem].
Qed.

(** *** file_path *)

(** What follows the last [c] of a string, the whole string when it has
    none: [s.split(c)[-1]]. *)
Fixpoint after_last (c : ascii) (s acc : string) : string :=
  match s with
  | EmptyString => acc
  | String a s' => if Ascii.eqb a c then after_last c s' s' else after_last c s' acc
  end.

(** [ExtraFilesPipeline.file_path]: where a downloaded file is stored;
    [posix] is [str(PurePosixPath(...))]. *)
Definition file_path (posix : string -> string) (url : string) (item : DatasetItem)
  : result string :=
  let end_str := after_last "="%char url url in
  if String.eqb end_str "xml" then Ok (posix (item_meta_path item))
  else if String.eqb end_str "true" then Ok (posix (item_extent_path item))
  else Raise (ValueError ("input url " ++ url ++ " is not correct.")).

Lemma after_last_app (c : ascii) (p t acc : string) :
  after_last c (p ++ String c t) acc = after_last c t t.
Proof.
  revert acc. induction p as [| a p IH]; intros acc; simpl.
  - now rewrite Ascii.eqb_refl.
  - destruct (Ascii.eqb a c); apply IH.
Qed.

(** X12. A download is stored by the text after the last [=] of its url: a
    url that ends in [=xml] goes to the item's metadata path, one that ends in
    [=true] to its extent path, whatever comes before; and a path is never
    returned for another ending, the call raises [ValueError]. *)
Theorem file_path_by_ending (posix : string -> string) (item : DatasetItem) :
  (forall prefix, file_path posix (prefix ++ "=xml") item = Ok (posix (item_meta_path item))) /\
  (forall prefix,
     file_path posix (prefix ++ "=true") item = Ok (posix (item_extent_path item))) /\
  (forall url path, file_path posix url item = Ok path ->
     (after_last "="%char url url = "xml" /\ path = posix (item_meta_path item)) \/
     (after_last "="%char url url = "true" /\ path = posix (item_extent_path item))).
Proof.
  unfold file_path. split; [| split].
  - intros prefix. change (prefix ++ "=xml") with (prefix ++ String "="%char "xml").
    rewrite after_last_app. reflexivity.
  - intros prefix. change (prefix ++ "=true") with (prefix ++ String "="%char "true").
    rewrite after_last_app. reflexivity.
  - intros url path.
    destruct (String.eqb (after_last "="%char url url) "xml") eqn:E1.
    + apply String.eqb_eq in E1. intros H. injection H as <-. now left.
    + destruct (String.eqb (after_last "="%char url url) "true") eqn:E2; [| discriminate].
      apply String.eqb_eq in E2. intros H. injection H as <-. now right.
Qed.

End Datasets.

(* ================================================================== *)
(** ** src/process.py: the catchment and DEM orchestrator *)
(* ================================================================== *)

Module Process.

(** What the orchestrator reaches outside the repository or through the
    database.  The theorems hold for every such world. *)
Record World : Type := mkWorld {
  (** [os.environ] and [os.cpu_count()] *)
  environ : string -> option string;
  cpu_count : Z;
  (** pathlib: [str(PurePosixPath(s))], [str(a / b)], [os.path.basename],
      [os.path.exists] *)
  posix : string -> string;
  joinpath : string -> string -> string;
  basename : string -> string;
  path_exists : string -> bool;
  (** the spatial queries of utils.py, [retrieve_dataset(...)[0]] and
      [retrieve_lidar(...)], on the boundary file, the instructions and the
      buffer *)
  retrieve_dataset : string -> obj -> Q -> result obj;
  retrieve_lidar : string -> obj -> Q -> result obj;
  (** writing the instructions of a catchment to its file *)
  save_instructions : obj -> string -> result unit;
  (** geofabrics: the raw and the hydrologic DEM generators *)
  gen_dem : obj -> result unit;
  (** [pd.Timestamp.now()] and the time a catchment took *)
  now : string;
  elapsed : Z -> Z;
  (** the tables: the [catch_id] columns of [sdc] and [catchment], the
      boundary of a catchment and whether the buffered lidar extent meets it,
      and the two queries of src/tables.py on split catchments *)
  sdc_ids : list Z;
  catchment_ids : list Z;
  get_data_by_id : Z -> result Geometry.geometry;
  intersects_lidar_extent : Geometry.geometry -> Q -> bool;
  get_split_catchment_by_id : Z -> list Z;
  get_id_under_area : Q -> list Z;
  (** writing the boundary file of a catchment, and the export of the
      extent of the produced DEMs *)
  gen_boundary_file : Z -> Geometry.geometry -> result unit;
  export_dem_extent : result unit
}.

(** *** Computations on the shared instructions object

    [instructions] is one dictionary, edited in place by every call and
    handed from one catchment to the next; an exception leaves the edits made
    so far. *)
Definition M (A : Type) : Type := obj -> result A * obj.

Definition ret {A} (a : A) : M A := fun s => (Ok a, s).

Definition bind {A B} (m : M A) (k : A -> M B) : M B :=
  fun s => match m s with
           | (Ok a, s') => k a s'
           | (Raise e, s') => (Raise e, s')
           end.

Definition lift {A} (r : result A) : M A := fun s => (r, s).

Notation "x <~ m ;; k" := (bind m (fun x => k))
  (at level 61, m at next level, right associativity).
Notation "m ;;; k" := (bind m (fun _ => k))
  (at level 61, right associativity).

(** [instructions[k1]...[kn][k] = v] *)
Definition assign (ks : list string) (k : string) (v : obj) : M unit :=
  fun s => match set_path s ks k v with
           | Ok s' => (Ok tt, s')
           | Raise e => (Raise e, s)
           end.

(** [instructions[k1]...[kn]] *)
Definition read (ks : list string) : M obj :=
  fun s => (get_path s ks, s).

(** [instructions[k1]...[kn].get(k)] *)
Definition read_get (ks : list string) (k : string) : M obj :=
  fun s => (d <- get_path s ks ;; get d k, s).

(** The whole object, as an argument of a call. *)
Definition current : M obj := fun s => (Ok s, s).

Definition when (b : bool) (m : M unit) : M unit :=
  if b then m else ret tt.

(** The text of a value read from the environment. *)
Definition text (v : obj) : string :=
  match v with
  | PStr s => s
  | _ => ""
  end.

Definition env (w : World) (var_name : string) : M string :=
  v <~ lift (Utils.get_env (environ w) var_name) ;; ret (text v).

Definition data_paths : list string := ["instructions"; "data_paths"].
Definition datasets : list string := ["instructions"; "datasets"].
Definition lidar : list string := ["instructions"; "datasets"; "lidar"].
Definition linz : list string := ["instructions"; "datasets"; "vector"; "linz"].

(** [gen_instructions]: lines 67 to 84, the core count and the data
    paths; the answer is [data_dir] and [subfolder]. *)
Definition gen_paths (w : World) (index : Z) : M (string * string) :=
  let n_cpu := cpu_count w in
  assign ["instructions"; "processing"] "number_of_cores"
         (PInt (if 8 <? n_cpu then n_cpu - 1 else n_cpu)) ;;;
  data_dir <~ env w "DATA_DIR" ;;
  dem_dir <~ env w "DEM_DIR" ;;
  let data_dir := posix w data_dir in
  let dem_dir := posix w dem_dir in
  let index_dir := posix w (str_of_Z index) in
  let subfolder := posix w (joinpath w dem_dir index_dir) in
  paths <~ read_get ["instructions"] "data_paths" ;;
  when (is_none paths) (assign ["instructions"] "data_paths" (PDict [])) ;;;
  assign data_paths "local_cache" (PStr data_dir) ;;;
  assign data_paths "subfolder" (PStr subfolder) ;;;
  assign data_paths "downloads" (PStr data_dir) ;;;
  assign data_paths "result_dem" (PStr (str_of_Z index ++ ".nc")) ;;;
  assign data_paths "raw_dem" (PStr (str_of_Z index ++ "_raw_dem.nc")) ;;;
  assign data_paths "raw_dem_extents" (PStr (str_of_Z index ++ "_raw_extents.geojson")) ;;;
  assign data_paths "catchment_boundary" (PStr (str_of_Z index ++ ".geojson")) ;;;
  ret (data_dir, subfolder).

(** Lines 85 to 89: the land file. *)
Definition gen_land (w : World) : M unit :=
  land <~ lift (Utils.get_env (environ w) "LAND_FILE") ;;
  when (negb (is_none land))
    (land_file <~ env w "LAND_FILE" ;;
     assign data_paths "land" (PStr ("../../" ++ posix w land_file))).

(** Lines 92 to 114: the datasets of the mode. *)
Definition gen_datasets (w : World) (catchment_boundary_file mode : string) (buffer : Q)
  : M unit :=
  ds <~ read_get ["instructions"] "datasets" ;;
  when (is_none ds)
    (assign ["instructions"] "datasets" (PDict [("lidar", PDict [])])) ;;;
  when (String.eqb mode "api")
    (land <~ read_get data_paths "land" ;;
     when (is_none land)
       (vector <~ read_get datasets "vector" ;;
        when (is_none vector)
          (assign datasets "vector" (PDict [("linz", PDict [])])) ;;;
        key <~ lift (Utils.get_env (environ w) "LINZ_API_KEY") ;;
        assign linz "key" key ;;;
        assign linz "land" (PDict [("layers", PList [PInt 51153])])) ;;;
     instructions <~ current ;;
     found <~ lift (retrieve_dataset w catchment_boundary_file instructions buffer) ;;
     assign lidar "open_topography" found ;;;
     assign lidar "local" (PDict [])) ;;;
  when (String.eqb mode "local")
    (instructions <~ current ;;
     found <~ lift (retrieve_lidar w catchment_boundary_file instructions buffer) ;;
     assign lidar "local" found ;;;
     assign lidar "open_topography" (PDict [])).

(** [gen_instructions(engine, instructions, index, mode, buffer)]; the
    object it returns is [instructions] itself. *)
Definition gen_instructions (w : World) (index : Z) (mode : string) (buffer : Q) : M unit :=
  dirs <~ gen_paths w index ;;
  let '(data_dir, subfolder) := dirs in
  gen_land w ;;;
  let catchment_boundary_file :=
    posix w (joinpath w (joinpath w data_dir subfolder) (str_of_Z index ++ ".geojson")) in
  gen_datasets w catchment_boundary_file mode buffer ;;;
  let instructions_path :=
    posix w (joinpath w (joinpath w data_dir subfolder) "instructions.json") in
  instructions <~ current ;;
  lift (save_instructions w instructions instructions_path).

(** [single_process]: [None] when the catchment has no lidar data, the
    instructions otherwise. *)
Definition single_process (w : World) (index : Z) (mode : string) (buffer : Q)
  : M (option obj) :=
  gen_instructions w index mode buffer ;;;
  proceed <~
    (if String.eqb mode "api" then
       found <~ read (lidar ++ ["open_topography"])%list ;; ret (truthy found)
     else if String.eqb mode "local" then
       found <~ read (lidar ++ ["local"])%list ;; ret (truthy found)
     else lift (Raise (ValueError ("Invalid mode: " ++ mode)))) ;;
  if proceed : bool then
    single_instructions <~ current ;;
    lift (gen_dem w single_instructions) ;;;
    ret (Some single_instructions)
  else ret None.

(** *** store_hydro_to_db *)

(** A row of the [dem] table. *)
Record DemRecord : Type := mkDem {
  catch_id : string;
  raw_dem_path : string;
  hydro_dem_path : string;
  extent_path : string;
  created_at : string;
  updated_at : string
}.

(** [len(x)] *)
Definition py_len (x : option obj) : result nat :=
  match x with
  | Some (PDict d) => Ok (List.length d)
  | Some (PList l) => Ok (List.length l)
  | Some (PStr s) => Ok (String.length s)
  | Some _ => Raise (TypeError "object has no len()")
  | None => Raise (TypeError "object of type 'NoneType' has no len()")
  end.

(** A path read from the instructions; pathlib takes a string. *)
Definition path_at (instructions : obj) (k : string) : result string :=
  v <- get_path instructions (data_paths ++ [k])%list ;;
  match v with
  | PStr s => Ok s
  | _ => Raise (TypeError "expected str, bytes or os.PathLike object")
  end.

Definition assert (b : bool) (msg : string) : result unit :=
  if b then Ok tt else Raise (AssertionError msg).

Definition update_record (index raw result_dem extent timestamp : string) (r : DemRecord)
  : DemRecord :=
  if String.eqb (catch_id r) index
  then mkDem (catch_id r) raw result_dem extent (created_at r) timestamp
  else r.

(** [store_hydro_to_db(engine, DEM, instructions)]: the table before, the
    table after. *)
Definition store_hydro_to_db (w : World) (table : list DemRecord)
  (instructions : option obj) : result unit * list DemRecord :=
  let checked :=
    n <- py_len instructions ;;
    _ <- assert (0 <? n)%nat "instructions is empty dictionary." ;;
    let instructions := match instructions with Some x => x | None => PNone end in
    subfolder <- path_at instructions "subfolder" ;;
    let index := basename w subfolder in
    local_cache <- path_at instructions "local_cache" ;;
    subfolder <- path_at instructions "subfolder" ;;
    let dir_path := joinpath w local_cache subfolder in
    raw_dem <- path_at instructions "raw_dem" ;;
    let raw_dem_path := joinpath w dir_path raw_dem in
    result_dem <- path_at instructions "result_dem" ;;
    let result_dem_path := joinpath w dir_path result_dem in
    raw_dem_extents <- path_at instructions "raw_dem_extents" ;;
    let raw_extent_path := joinpath w dir_path raw_dem_extents in
    _ <- assert (path_exists w raw_dem_path) ("Warning: File " ++ raw_dem_path ++ " not exist.") ;;
    _ <- assert (path_exists w result_dem_path)
           ("Warning: File " ++ result_dem_path ++ " not exist.") ;;
    _ <- assert (path_exists w raw_extent_path)
           ("Warning: File " ++ raw_extent_path ++ " not exist.") ;;
    Ok (index, raw_dem_path, result_dem_path, raw_extent_path)
  in
  match checked with
  | Raise e => (Raise e, table)
  | Ok (index, raw_dem_path, result_dem_path, raw_extent_path) =>
      let timestamp := now w in
      if existsb (fun r => String.eqb (catch_id r) index) table
      then (Ok tt,
            map (update_record index raw_dem_path result_dem_path raw_extent_path timestamp)
                table)
      else (Ok tt,
            (table ++ [mkDem index raw_dem_path result_dem_path raw_extent_path
                             timestamp timestamp])%list)
  end.

(** *** run *)

(** What [run]'s own logger calls record. *)
Inductive event : Type :=
| LogError (e : exn)
| LogWarning (msg : string)
| LogInfo (msg : string).

(** The state of the batch loop. *)
Record Batch : Type := mkBatch {
  instructions : obj;
  dem : list DemRecord;
  failed : list Z;
  runtime : list Z;
  log : list event
}.

(** The [catch_id] argument when it is given: one id, or a list. *)
Inductive catch_arg : Type :=
| One (i : Z)
| Many (l : list Z).

Fixpoint insert_sorted (x : Z) (l : list Z) : list Z :=
  match l with
  | [] => [x]
  | y :: l' => if x <=? y then x :: l else y :: insert_sorted x l'
  end.

(** [sorted(l)] *)
Definition sorted (l : list Z) : list Z := fold_right insert_sorted [] l.

(** [i in l] *)
Definition zmem (i : Z) (l : list Z) : bool := existsb (Z.eqb i) l.

(** Lines 245 to 257: the ids one requested id stands for, and the warning
    when it stands for none. *)
Definition resolve_id (w : World) (sdc_id catchment_id : list Z) (i : Z)
  : list Z * list event :=
  if zmem i catchment_id then ([i], [])
  else if zmem i sdc_id && negb (zmem i catchment_id) then
    let _list := get_split_catchment_by_id w i in
    if (0 <? List.length _list)%nat then (_list, [])
    else ([], [LogWarning ("Catchment " ++ str_of_Z i ++ " is not in catchment table, "
                           ++ "please check if it is duplicated or overlap with other catchments.")])
  else ([], [LogWarning ("Catchment " ++ str_of_Z i ++ " is not in catchment table, ignore it.")]).

(** Lines 236 to 268: the catchments to process.  With neither argument
    given, the third test compares [None] with 0. *)
Definition select_catchments (w : World) (catch_id : option catch_arg) (area : option Q)
  : result (list Z) * list event :=
  match catch_id with
  | Some given =>
      let catch_id := match given with One i => [i] | Many l => l end in
      let sdc_id := sorted (sdc_ids w) in
      let catchment_id := sorted (catchment_ids w) in
      let resolved := map (resolve_id w sdc_id catchment_id) catch_id in
      (Ok (flat_map fst resolved), flat_map snd resolved)
  | None =>
      match area with
      | Some area =>
          let catch_id := get_id_under_area w area in
          (Ok catch_id, [LogInfo "Catchments that area is under the limit"])
      | None =>
          (Raise (TypeError "'<' not supported between instances of 'NoneType' and 'int'"),
           [])
      end
  end.

(** The loop of lines 289 to 309.  [None] says the loop ran to its end,
    [Some e] that [e] left it. *)
Fixpoint process_catchments (w : World) (mode : string) (buffer : Q) (resolution : obj)
  (catch_id : list Z) (st : Batch) : option exn * Batch :=
  match catch_id with
  | [] => (None, st)
  | i :: rest =>
      match get_data_by_id w i with
      | Raise e => (Some e, st)
      | Ok catchment_boundary =>
          if truthy resolution && intersects_lidar_extent w catchment_boundary buffer then
            match gen_boundary_file w i catchment_boundary with
            | Raise e => (Some e, st)
            | Ok _ =>
                match single_process w i mode buffer (instructions st) with
                | (Raise e, instructions') =>
                    process_catchments w mode buffer resolution rest
                      (mkBatch instructions' (dem st) (failed st ++ [i]) (runtime st)
                               (log st ++ [LogError e]))
                | (Ok single_instructions, instructions') =>
                    let runtime' := (runtime st ++ [elapsed w i])%list in
                    match store_hydro_to_db w (dem st) single_instructions with
                    | (Raise e, dem') =>
                        (Some e, mkBatch instructions' dem' (failed st) runtime' (log st))
                    | (Ok _, dem') =>
                        process_catchments w mode buffer resolution rest
                          (mkBatch instructions' dem' (failed st) runtime' (log st))
                    end
                end
            end
          else if is_none resolution then
            process_catchments w mode buffer resolution rest
              (mkBatch (instructions st) (dem st) (failed st) (runtime st)
                 (log st ++ [LogWarning
                    "Warning: resolution is None, please check the instructions file."]))
          else
            process_catchments w mode buffer resolution rest
              (mkBatch (instructions st) (dem st) (failed st) (runtime st)
                 (log st ++ [LogInfo ("Catchment " ++ str_of_Z i
                                      ++ " is not within lidar extent, ignor it.")]))
      end
  end.

(** ['resolution' in grid_params] *)
Definition has_key (x : obj) (k : string) : result bool :=
  match x with
  | PDict d => Ok (match lookup k d with Some _ => true | None => false end)
  | PList l => Ok (existsb (fun v => match v with
                                     | PStr s => String.eqb s k
                                     | _ => false
                                     end) l)
  | PStr s => Ok (contains k s)
  | _ => Raise (TypeError "argument is not iterable")
  end.

(** Lines 283 to 285. *)
Definition read_resolution (instructions : obj) : result obj :=
  grid_params <- get_path instructions ["instructions"; "output"; "grid_params"] ;;
  present <- has_key grid_params "resolution" ;;
  if present : bool then getitem grid_params "resolution" else Ok PNone.

Definition connection_keys : list string :=
  ["POSTGRES_HOST"; "POSTGRES_PORT"; "POSTGRES_DB"; "POSTGRES_USER"; "POSTGRES_PASSWORD"].

(** The configuration [run] reads before it selects anything. *)
Fixpoint read_env (w : World) (keys : list string) : result unit :=
  match keys with
  | [] => Ok tt
  | k :: keys' => _ <- Utils.get_env (environ w) k ;; read_env w keys'
  end.

(** What [run] leaves: the exception that ended it if any, the state of the
    batch, and the instructions file. *)
Record Outcome : Type := mkOutcome {
  raised : option exn;
  batch : Batch;
  instructions_file : obj
}.

(** [run(catch_id, area, mode, buffer, gpkg)] on the instructions file, the
    dataset table and the dem table it finds. *)
Definition run (w : World) (file : obj) (dataset_table : list (string * Z))
  (dem_table : list DemRecord) (catch_id : option catch_arg) (area : option Q)
  (mode : string) (buffer : Q) (gpkg : bool) : Outcome :=
  let start := mkBatch file dem_table [] [] [] in
  match read_env w (connection_keys ++ ["DATA_DIR"; "DEM_DIR"; "INSTRUCTIONS_FILE"])%list with
  | Raise e => mkOutcome (Some e) start file
  | Ok _ =>
      match Utils.map_dataset_name_with_id dataset_table file with
      | (Raise e, file') => mkOutcome (Some e) start file'
      | (Ok _, file') =>
          match select_catchments w catch_id area with
          | (Raise e, events) => mkOutcome (Some e) (mkBatch file dem_table [] [] events) file'
          | (Ok catch_id, events) =>
              match read_resolution file with
              | Raise e => mkOutcome (Some e) (mkBatch file dem_table [] [] events) file'
              | Ok resolution =>
                  let '(stopped, st) :=
                    process_catchments w mode buffer resolution catch_id
                      (mkBatch file dem_table [] [] events) in
                  match stopped with
                  | Some e => mkOutcome (Some e) st file'
                  | None =>
                      if gpkg then
                        match export_dem_extent w with
                        | Raise e => mkOutcome (Some e) st file'
                        | Ok _ => mkOutcome None st file'
                        end
                      else mkOutcome None st file'
                  end
              end
          end
      end
  end.

(** *** A small world to run the orchestrator in *)

Fixpoint after_last_slash (s acc : string) : string :=
  match s with
  | EmptyString => acc
  | String c s' =>
      if Ascii.eqb c "/"%char then after_last_slash s' s' else after_last_slash s' acc
  end.

(** The variables of a deployment; [land] is the value of LAND_FILE. *)
Definition demo_environ (land : option string) (var_name : string) : option string :=
  if String.eqb var_name "LAND_FILE" then land
  else if String.eqb var_name "DATA_DIR" then Some "datastorage"
  else if String.eqb var_name "DEM_DIR" then Some "hydro_dem"
  else if String.eqb var_name "LIDAR_DIR" then Some "lidar"
  else if String.eqb var_name "INSTRUCTIONS_FILE" then Some "configs/instructions.json"
  else if String.eqb var_name "LINZ_API_KEY" then Some "linz-key"
  else if Utils.mem var_name connection_keys then Some "postgres"
  else None.

(** Three catchments, one split catchment; [found] is what the dataset
    query answers and [files] whether the DEM files are on disk. *)
Definition demo_world (land : option string) (found : obj) (files : bool) : World :=
  {| environ := demo_environ land;
     cpu_count := 4;
     posix := fun s => s;
     joinpath := fun a b => a ++ "/" ++ b;
     basename := fun s => after_last_slash s s;
     path_exists := fun _ => files;
     retrieve_dataset := fun _ _ _ => Ok found;
     retrieve_lidar := fun _ _ _ => Ok found;
     save_instructions := fun _ _ => Ok tt;
     gen_dem := fun _ => Ok tt;
     now := "2024-02-02 09:30:00";
     elapsed := fun _ => 60;
     sdc_ids := [1394; 1588; 1596; 13042395];
     catchment_ids := [1588; 1394; 1596];
     get_data_by_id := fun _ => Ok (Geometry.box 0 0 1 1);
     intersects_lidar_extent := fun _ _ => true;
     get_split_catchment_by_id := fun _ => [];
     get_id_under_area := fun _ => [1394];
     gen_boundary_file := fun _ _ => Ok tt;
     export_dem_extent := Ok tt |}.

Definition base_instructions : obj :=
  PDict [("instructions",
          PDict [("processing", PDict [("chunk_size", PInt 2400)]);
                 ("output", PDict [("grid_params", PDict [("resolution", PInt 8)])]);
                 ("dataset_mapping", PDict [])])].

Definition one_dataset : obj :=
  PDict [("NZ10_WHope",
          PDict [("crs", PDict [("horizontal", PInt 2193); ("vertical", PInt 7839)])])].

Definition start_batch : Batch := mkBatch base_instructions [] [] [] [].

(** *** LAND_FILE *)

(** A variable that is unset, or set to the empty string, makes the reader
    raise; [get_env_variable] never answers [None]. *)
Lemma get_env_unset (environ : string -> option string) (var_name : string) :
  environ var_name = None \/ environ var_name = Some "" ->
  Utils.get_env environ var_name = Raise (Utils.env_missing var_name).
Proof.
  unfold Utils.get_env, Utils.get_env_variable, Utils.getenv.
  intros [-> | ->]; reflexivity.
Qed.

(** What the reader answers is never [None]: the test [is not None] of
    [gen_instructions] cannot fail once the reader has returned. *)
Lemma get_env_not_none (environ : string -> option string) (var_name : string) (v : obj) :
  Utils.get_env environ var_name = Ok v -> is_none v = false.
Proof.
  unfold Utils.get_env, Utils.get_env_variable, Utils.getenv.
  destruct (environ var_name) as [s |]; simpl; [| discriminate].
  destruct (String.eqb s ""); simpl; [discriminate |].
  intros H. injection H as <-. reflexivity.
Qed.

Lemma gen_land_unset (w : World) (s : obj) :
  environ w "LAND_FILE" = None \/ environ w "LAND_FILE" = Some "" ->
  gen_land w s = (Raise (Utils.env_missing "LAND_FILE"), s).
Proof.
  intros H. unfold gen_land, bind, lift. now rewrite (get_env_unset _ _ H).
Qed.

(** Without LAND_FILE [gen_instructions] does not return, whatever the rest
    of the world is. *)
Lemma gen_instructions_needs_land_file (w : World) (index : Z) (mode : string)
  (buffer : Q) (s : obj) :
  environ w "LAND_FILE" = None \/ environ w "LAND_FILE" = Some "" ->
  is_ok (fst (gen_instructions w index mode buffer s)) = false.
Proof.
  intros H. unfold gen_instructions. unfold bind at 1.
  destruct (gen_paths w index s) as [[[data_dir subfolder] | e] s']; [| reflexivity].
  unfold bind at 1. now rewrite (gen_land_unset w s' H).
Qed.

(** C3, at a deployment that sets every variable but LAND_FILE: the
    instructions are not assembled, [gen_instructions] raises the
    missing-configuration [KeyError]; and so it does, or fails earlier, in
    every environment without LAND_FILE. *)
Theorem gen_instructions_land_file_unset :
  demo_environ None "LAND_FILE" = None /\
  fst (gen_instructions (demo_world None one_dataset true) 1394 "api" 10 base_instructions) =
    Raise (KeyError "Environment variable LAND_FILE not set, and allow_empty is False") /\
  (forall w index mode buffer s,
     environ w "LAND_FILE" = None \/ environ w "LAND_FILE" = Some "" ->
     is_ok (fst (gen_instructions w index mode buffer s)) = false).
Proof.
  split; [reflexivity |]. split; [vm_compute; reflexivity |].
  exact gen_instructions_needs_land_file.
Qed.

(** The same deployment with LAND_FILE set assembles the instructions. *)
Example gen_instructions_land_file_set :
  is_ok (fst (gen_instructions (demo_world (Some "land.geojson") one_dataset true)
                1394 "api" 10 base_instructions)) = true.
Proof. vm_compute. reflexivity. Qed.

(** *** The selection of catchments *)

Lemma zmem_insert_sorted (i x : Z) (l : list Z) :
  zmem i (insert_sorted x l) = (i =? x) || zmem i l.
Proof.
  unfold zmem. induction l as [| y l IH]; simpl; [reflexivity |].
  destruct (x <=? y); simpl; [reflexivity |].
  rewrite IH. destruct (i =? x), (i =? y); reflexivity.
Qed.

Lemma zmem_sorted (i : Z) (l : list Z) : zmem i (sorted l) = zmem i l.
Proof.
  induction l as [| x l IH]; simpl; [reflexivity |].
  rewrite zmem_insert_sorted, IH. reflexivity.
Qed.

(** An id that is in neither table selects nothing; a negative id is no
    exception. *)
Lemma select_unknown_id (w : World) (i : Z) (area : option Q) :
  zmem i (catchment_ids w) = false -> zmem i (sdc_ids w) = false ->
  fst (select_catchments w (Some (One i)) area) = Ok [].
Proof.
  intros Hc Hs. unfold select_catchments. simpl. unfold resolve_id.
  rewrite !zmem_sorted, Hc, Hs. reflexivity.
Qed.

(** The test for a negative id is met only with [catch_id] and [area] both
    [None]: it compares [None] with 0 and raises. *)
Lemma select_without_arguments (w : World) :
  exists msg, fst (select_catchments w None None) = Raise (TypeError msg).
Proof. eexists. reflexivity. Qed.

(** C1, at [catch_id = -1] with no area and three catchments in the
    table: nothing is selected and the run ends without a DEM, a failure or a
    timed catchment; so it is for every id that is in neither table. *)
Theorem run_negative_catch_id :
  catchment_ids (demo_world (Some "land.geojson") one_dataset true) = [1588; 1394; 1596] /\
  select_catchments (demo_world (Some "land.geojson") one_dataset true)
    (Some (One (-1))) None =
    (Ok [], [LogWarning "Catchment -1 is not in catchment table, ignore it."]) /\
  (let out := run (demo_world (Some "land.geojson") one_dataset true) base_instructions
                [("NZ10_WHope", 1)] [] (Some (One (-1))) None "api" 10 false in
   raised out = None /\ dem (batch out) = [] /\ failed (batch out) = [] /\
   runtime (batch out) = []) /\
  (forall w i area,
     zmem i (catchment_ids w) = false -> zmem i (sdc_ids w) = false ->
     fst (select_catchments w (Some (One i)) area) = Ok []).
Proof.
  split; [reflexivity |]. split; [reflexivity |]. split.
  - vm_compute. repeat split; reflexivity.
  - exact select_unknown_id.
Qed.

(** *** The batch loop *)

Lemma process_catchments_failure (w : World) (mode : string) (buffer : Q)
  (resolution : obj) (i : Z) (rest : list Z) (st : Batch)
  (catchment_boundary : Geometry.geometry) (e : exn) (instructions' : obj) :
  get_data_by_id w i = Ok catchment_boundary ->
  truthy resolution = true ->
  intersects_lidar_extent w catchment_boundary buffer = true ->
  gen_boundary_file w i catchment_boundary = Ok tt ->
  single_process w i mode buffer (instructions st) = (Raise e, instructions') ->
  process_catchments w mode buffer resolution (i :: rest) st =
  process_catchments w mode buffer resolution rest
    (mkBatch instructions' (dem st) (failed st ++ [i]) (runtime st)
             (log st ++ [LogError e])).
Proof.
  intros Hb Hr Hi Hg Hs. simpl. rewrite Hb, Hr, Hi, Hg, Hs. reflexivity.
Qed.

(** C2, as the code has it. For every catchment the batch reaches, an
    exception raised by [single_process] is caught, logged and recorded in the
    failure list, and the loop goes on with the next catchment, the
    instructions as the failed call left them. *)
Theorem batch_continues_after_failure (w : World) (mode : string) (buffer : Q)
  (resolution : obj) (i : Z) (rest : list Z) (st : Batch)
  (catchment_boundary : Geometry.geometry) (e : exn) (instructions' : obj) :
  get_data_by_id w i = Ok catchment_boundary ->
  truthy resolution = true ->
  intersects_lidar_extent w catchment_boundary buffer = true ->
  gen_boundary_file w i catchment_boundary = Ok tt ->
  single_process w i mode buffer (instructions st) = (Raise e, instructions') ->
  process_catchments w mode buffer resolution (i :: rest) st =
  process_catchments w mode buffer resolution rest
    (mkBatch instructions' (dem st) (failed st ++ [i]) (runtime st)
             (log st ++ [LogError e])).
Proof.
  apply process_catchments_failure.
Qed.

Lemma batch_continues_after_failure_witness :
  process_catchments (demo_world None one_dataset true) "api" 10 (PInt 8)
    [1394; 1588] start_batch =
  process_catchments (demo_world None one_dataset true) "api" 10 (PInt 8)
    [1588]
    (mkBatch (snd (single_process (demo_world None one_dataset true) 1394 "api" 10
                     base_instructions))
       [] [1394] []
       [LogError (KeyError "Environment variable LAND_FILE not set, and allow_empty is False")]).
Proof.
  apply (batch_continues_after_failure (demo_world None one_dataset true) "api" 10
           (PInt 8) 1394 [1588] start_batch (Geometry.box 0 0 1 1)).
  - reflexivity.
  - reflexivity.
  - reflexivity.
  - reflexivity.
  - vm_compute. reflexivity.
Defined.

(** When every catchment fails in [single_process] the loop still reaches
    the end, with all of them in the failure list. *)
Lemma batch_records_every_failure (w : World) (mode : string) (buffer : Q)
  (resolution : obj) (catch_id : list Z) :
  truthy resolution = true ->
  (forall i, exists b, get_data_by_id w i = Ok b /\
                       intersects_lidar_extent w b buffer = true /\
                       gen_boundary_file w i b = Ok tt) ->
  (forall i s, is_ok (fst (single_process w i mode buffer s)) = false) ->
  forall st,
    fst (process_catchments w mode buffer resolution catch_id st) = None /\
    failed (snd (process_catchments w mode buffer resolution catch_id st)) =
      (failed st ++ catch_id)%list /\
    dem (snd (process_catchments w mode buffer resolution catch_id st)) = dem st.
Proof.
  intros Hr Hw Hs. induction catch_id as [| i rest IH]; intros st.
  - simpl. rewrite app_nil_r. auto.
  - destruct (Hw i) as [b [Hb [Hi Hg]]].
    specialize (Hs i (instructions st)).
    destruct (single_process w i mode buffer (instructions st)) as [[single | e] s'] eqn:E;
      [discriminate Hs |].
    rewrite (process_catchments_failure w mode buffer resolution i rest st b e s'
               Hb Hr Hi Hg E).
    destruct (IH (mkBatch s' (dem st) (failed st ++ [i]) (runtime st)
                          (log st ++ [LogError e]))) as [H1 [H2 H3]].
    rewrite H1, H2, H3. simpl. rewrite <- app_assoc. auto.
Qed.

(** The handler does not reach every per-catchment failure.  A catchment
    with no lidar data: [single_process] returns [None], which goes to
    [store_hydro_to_db] outside the handler, and [len(None)] ends the batch;
    the next catchment is not reached and nothing is in the failure list.
    Missing DEM files: the assertion of [store_hydro_to_db] ends the batch the
    same way. *)
Lemma batch_aborts_outside_handler :
  fst (single_process (demo_world (Some "land.geojson") (PDict []) true) 1394 "api" 10
         base_instructions) = Ok None /\
  fst (process_catchments (demo_world (Some "land.geojson") (PDict []) true) "api" 10
         (PInt 8) [1394; 1588] start_batch) =
    Some (TypeError "object of type 'NoneType' has no len()") /\
  failed (snd (process_catchments (demo_world (Some "land.geojson") (PDict []) true) "api" 10
                 (PInt 8) [1394; 1588] start_batch)) = [] /\
  fst (process_catchments (demo_world (Some "land.geojson") one_dataset false) "api" 10
         (PInt 8) [1394; 1588] start_batch) =
    Some (AssertionError
            "Warning: File datastorage/hydro_dem/1394/1394_raw_dem.nc not exist.") /\
  failed (snd (process_catchments (demo_world (Some "land.geojson") one_dataset false) "api" 10
                 (PInt 8) [1394; 1588] start_batch)) = [].
Proof.
  repeat split; vm_compute; reflexivity.
Qed.

(* ------------------------------------------------------------------ *)
(** *** More of src/process.py *)
(* ------------------------------------------------------------------ *)

(** *** The DemRecord upsert *)

(** The table after the update or the insert of [store_hydro_to_db]. *)
Definition upserted (index raw hydro extent timestamp : string) (table : list DemRecord)
  : list DemRecord :=
  if existsb (fun r => String.eqb (catch_id r) index) table
  then map (update_record index raw hydro extent timestamp) table
  else (table ++ [mkDem index raw hydro extent timestamp timestamp])%list.

(** What a row of the catchment looks like after the upsert. *)
Definition stored (index raw hydro extent timestamp : string) (r : DemRecord) : Prop :=
  catch_id r = index /\ raw_dem_path r = raw /\ hydro_dem_path r = hydro /\
  extent_path r = extent /\ updated_at r = timestamp.

Lemma upserted_rows (index raw hydro extent timestamp : string) (table : list DemRecord) :
  let table' := upserted index raw hydro extent timestamp table in
  (forall r', In r' table' -> catch_id r' = index ->
     stored index raw hydro extent timestamp r') /\
  (exists r', In r' table' /\ catch_id r' = index) /\
  (forall r, In r table -> catch_id r <> index -> In r table') /\
  (forall r', In r' table' -> catch_id r' <> index -> In r' table) /\
  (forall r, In r table -> catch_id r = index ->
     exists r', In r' table' /\ catch_id r' = index /\ created_at r' = created_at r) /\
  ((forall r, In r table -> catch_id r <> index) ->
   exists r', In r' table' /\ catch_id r' = index /\ created_at r' = timestamp) /\
  (NoDup (map catch_id table) -> NoDup (map catch_id table')).
Proof.
  unfold upserted, stored.
  destruct (existsb (fun r => String.eqb (catch_id r) index) table) eqn:Ex; simpl.
  - apply existsb_exists in Ex. destruct Ex as [r0 [Hr0 Hc0]]. apply String.eqb_eq in Hc0.
    assert (Hupd : forall r, catch_id (update_record index raw hydro extent timestamp r)
                             = catch_id r).
    { intros r. unfold update_record. destruct (String.eqb (catch_id r) index); reflexivity. }
    assert (Hhit : forall r, catch_id r = index ->
                update_record index raw hydro extent timestamp r =
                mkDem (catch_id r) raw hydro extent (created_at r) timestamp).
    { intros r Hc. unfold update_record. apply String.eqb_eq in Hc. now rewrite Hc. }
    assert (Hmiss : forall r, catch_id r <> index ->
                update_record index raw hydro extent timestamp r = r).
    { intros r Hc. unfold update_record. apply String.eqb_neq in Hc. now rewrite Hc. }
    split; [| split; [| split; [| split; [| split; [| split]]]]].
    + intros r' Hr' Hc. apply in_map_iff in Hr'. destruct Hr' as [r [<- Hr]].
      rewrite Hupd in Hc. rewrite (Hhit r Hc). simpl. tauto.
    + exists (update_record index raw hydro extent timestamp r0).
      split; [now apply in_map | now rewrite Hupd].
    + intros r Hr Hne. apply in_map_iff. exists r. split; [now apply Hmiss | exact Hr].
    + intros r' Hr' Hne. apply in_map_iff in Hr'. destruct Hr' as [r [<- Hr]].
      rewrite Hupd in Hne. now rewrite (Hmiss r Hne).
    + intros r Hr Hc. exists (update_record index raw hydro extent timestamp r).
      split; [now apply in_map |]. rewrite Hupd. split; [exact Hc |].
      now rewrite (Hhit r Hc).
    + intros Hnone. exfalso. exact (Hnone r0 Hr0 Hc0).
    + intros Hnd. rewrite map_map.
      rewrite (map_ext _ catch_id Hupd). exact Hnd.
  - assert (Hnone : forall r, In r table -> catch_id r <> index).
    { intros r Hr Hc. apply String.eqb_eq in Hc.
      assert (existsb (fun r => String.eqb (catch_id r) index) table = true)
        by (apply existsb_exists; eauto).
      congruence. }
    split; [| split; [| split; [| split; [| split; [| split]]]]].
    + intros r' Hr' Hc. apply in_app_or in Hr'.
      destruct Hr' as [Hr' | [<- | []]]; [now apply Hnone in Hr' | simpl; tauto].
    + eexists. split; [apply in_or_app; right; left; reflexivity | reflexivity].
    + intros r Hr _. apply in_or_app. now left.
    + intros r' Hr' Hne. apply in_app_or in Hr'.
      destruct Hr' as [Hr' | [<- | []]]; [exact Hr' | now contradiction Hne].
    + intros r Hr Hc. now apply Hnone in Hr.
    + intros _. eexists.
      split; [apply in_or_app; right; left; reflexivity | split; reflexivity].
    + intros Hnd. rewrite map_app. simpl. apply NoDup_app.
      * exact Hnd.
      * constructor; [intros [] | constructor].
      * intros x Hx [<- | []]. apply in_map_iff in Hx. destruct Hx as [r [Hc Hr]].
        now apply Hnone in Hr.
Qed.

(** Split the next step of a chain of checks in [H]. *)
Ltac next_check H :=
  match type of H with
  | context [match ?r with Ok _ => _ | Raise _ => _ end] =>
      let E := fresh "E" in destruct r eqn:E; simpl in H; try discriminate H
  end.

Lemma assert_ok (b : bool) (msg : string) (u : unit) : assert b msg = Ok u -> b = true.
Proof. unfold assert. destruct b; [reflexivity | discriminate]. Qed.

(** X19. A [store_hydro_to_db] that goes through read five paths from the
    instructions and found on disk the three files it joins from them: the raw
    DEM, the result DEM and the raw extents under [local_cache / subfolder].
    It leaves, for the catchment named by the last component of the subfolder,
    rows whose [raw_dem_path], [hydro_dem_path] and [extent_path] are these
    three paths, in this order, updated at the time of the call; a catchment
    that had a row keeps its [created_at], one that had none gets a row
    created at the time of the call; the rows of the other catchments are
    neither changed, added nor removed, and catch_ids that were distinct stay
    distinct. *)
Theorem store_hydro_to_db_upsert (w : World) (table table' : list DemRecord)
  (instructions : obj) :
  store_hydro_to_db w table (Some instructions) = (Ok tt, table') ->
  exists local_cache subfolder raw_dem result_dem raw_dem_extents,
    path_at instructions "local_cache" = Ok local_cache /\
    path_at instructions "subfolder" = Ok subfolder /\
    path_at instructions "raw_dem" = Ok raw_dem /\
    path_at instructions "result_dem" = Ok result_dem /\
    path_at instructions "raw_dem_extents" = Ok raw_dem_extents /\
    let index := basename w subfolder in
    let dir_path := joinpath w local_cache subfolder in
    let raw := joinpath w dir_path raw_dem in
    let hydro := joinpath w dir_path result_dem in
    let extent := joinpath w dir_path raw_dem_extents in
    path_exists w raw = true /\ path_exists w hydro = true /\
    path_exists w extent = true /\
    (forall r', In r' table' -> catch_id r' = index ->
       raw_dem_path r' = raw /\ hydro_dem_path r' = hydro /\
       extent_path r' = extent /\ updated_at r' = now w) /\
    (exists r', In r' table' /\ catch_id r' = index) /\
    (forall r, In r table -> catch_id r <> index -> In r table') /\
    (forall r', In r' table' -> catch_id r' <> index -> In r' table) /\
    (forall r, In r table -> catch_id r = index ->
       exists r', In r' table' /\ catch_id r' = index /\ created_at r' = created_at r) /\
    ((forall r, In r table -> catch_id r <> index) ->
     exists r', In r' table' /\ catch_id r' = index /\ created_at r' = now w) /\
    (NoDup (map catch_id table) -> NoDup (map catch_id table')).
Proof.
  intros H. unfold store_hydro_to_db in H.
  match type of H with
  | match ?c with Ok _ => _ | Raise _ => _ end = _ =>
      destruct c as [[[[index raw] hydro] extent] | e] eqn:E; [| discriminate H]
  end.
  unfold rbind in E. repeat next_check E.
  injection E as <- <- <- <-.
  repeat match goal with
         | E : assert _ _ = Ok _ |- _ => apply assert_ok in E
         end.
  match type of H with
  | (if ?c then (_, ?t1) else (_, ?t2)) = _ =>
      assert (Ht : table' = if c then t1 else t2)
        by (destruct c; injection H as <-; reflexivity)
  end.
  match type of Ht with
  | table' = if _ then map (update_record (basename w ?sub)
                              (joinpath w (joinpath w ?cache _) ?raw_dem)
                              (joinpath w _ ?result_dem)
                              (joinpath w _ ?raw_dem_extents) ?ts) _
             else _ =>
      change (table' = upserted (basename w sub)
                         (joinpath w (joinpath w cache sub) raw_dem)
                         (joinpath w (joinpath w cache sub) result_dem)
                         (joinpath w (joinpath w cache sub) raw_dem_extents) ts table) in Ht;
      pose proof (upserted_rows (basename w sub)
                    (joinpath w (joinpath w cache sub) raw_dem)
                    (joinpath w (joinpath w cache sub) result_dem)
                    (joinpath w (joinpath w cache sub) raw_dem_extents) ts table) as Hrows;
      exists cache, sub, raw_dem, result_dem, raw_dem_extents
  end.
  cbv zeta in Hrows. rewrite <- Ht in Hrows.
  destruct Hrows as (Hstored & Hrest).
  repeat (split; [reflexivity || assumption |]).
  cbv zeta. repeat (split; [assumption |]).
  split; [| exact Hrest].
  intros r' Hin Hc. destruct (Hstored r' Hin Hc) as (_ & H1 & H2 & H3 & H4).
  repeat split; assumption.
Qed.

(** X13. A mode that is neither 'api' nor 'local' is refused only after the
    instructions were assembled and saved: [single_process] never returns for
    it, and where [gen_instructions] went through it raises [ValueError],
    with the instructions as [gen_instructions] left them. *)
Theorem single_process_invalid_mode (w : World) (index : Z) (mode : string)
  (buffer : Q) (s : obj) :
  mode <> "api" -> mode <> "local" ->
  is_ok (fst (single_process w index mode buffer s)) = false /\
  (forall s', gen_instructions w index mode buffer s = (Ok tt, s') ->
     single_process w index mode buffer s =
       (Raise (ValueError ("Invalid mode: " ++ mode)), s')).
Proof.
  intros Ha Hl. apply String.eqb_neq in Ha. apply String.eqb_neq in Hl.
  assert (H : single_process w index mode buffer s =
              match gen_instructions w index mode buffer s with
              | (Ok _, s') => (Raise (ValueError ("Invalid mode: " ++ mode)), s')
              | (Raise e, s') => (Raise e, s')
              end).
  { unfold single_process, bind, lift. rewrite Ha, Hl.
    destruct (gen_instructions w index mode buffer s) as [[[] | e] s']; reflexivity. }
  rewrite H.
  destruct (gen_instructions w index mode buffer s) as [[[] | e] s'].
  - split; [reflexivity |]. intros s'' Hs. injection Hs as <-. reflexivity.
  - split; [reflexivity | discriminate].
Qed.

Lemma single_process_invalid_mode_witness :
  is_ok (fst (single_process (demo_world (Some "land.geojson") one_dataset true)
                1394 "remote" 10 base_instructions)) = false.
Proof.
  apply (single_process_invalid_mode (demo_world (Some "land.geojson") one_dataset true)
           1394 "remote" 10 base_instructions); discriminate.
Defined.

(** X14. Without a resolution nothing is produced: when the resolution read
    from the instructions is missing, null or zero, the loop runs to its end
    over catchments whose boundary loads, and leaves the instructions, the
    dem table, the failure list and the run times as they were; it only logs
    one message per catchment. *)
Theorem process_catchments_no_resolution (w : World) (mode : string) (buffer : Q)
  (resolution : obj) (catch_id : list Z) :
  truthy resolution = false ->
  (forall i, In i catch_id -> is_ok (get_data_by_id w i) = true) ->
  forall st,
    fst (process_catchments w mode buffer resolution catch_id st) = None /\
    instructions (snd (process_catchments w mode buffer resolution catch_id st)) =
      instructions st /\
    dem (snd (process_catchments w mode buffer resolution catch_id st)) = dem st /\
    failed (snd (process_catchments w mode buffer resolution catch_id st)) = failed st /\
    runtime (snd (process_catchments w mode buffer resolution catch_id st)) = runtime st /\
    List.length (log (snd (process_catchments w mode buffer resolution catch_id st))) =
      (List.length (log st) + List.length catch_id)%nat.
Proof.
  intros Hr. induction catch_id as [| i rest IH]; intros Hb st.
  - simpl. repeat split; lia.
  - simpl. assert (Hi := Hb i (or_introl eq_refl)).
    destruct (get_data_by_id w i) as [b | e]; [| discriminate Hi].
    rewrite Hr. simpl.
    destruct (is_none resolution);
      match goal with
      | |- context [process_catchments w mode buffer resolution rest ?st'] =>
          destruct (IH (fun j Hj => Hb j (or_intror Hj)) st')
            as (H1 & H2 & H3 & H4 & H5 & H6)
      end;
      rewrite H1, H2, H3, H4, H5, H6; simpl; rewrite length_app; simpl;
      repeat split; lia.
Qed.

Lemma process_catchments_no_resolution_witness :
  fst (process_catchments (demo_world (Some "land.geojson") one_dataset true) "api" 10
         PNone [1394; 1588] start_batch) = None /\
  dem (snd (process_catchments (demo_world (Some "land.geojson") one_dataset true) "api" 10
              PNone [1394; 1588] start_batch)) = [] /\
  List.length (log (snd (process_catchments (demo_world (Some "land.geojson") one_dataset true)
                           "api" 10 PNone [1394; 1588] start_batch))) = 2%nat.
Proof.
  destruct (process_catchments_no_resolution
              (demo_world (Some "land.geojson") one_dataset true) "api" 10 PNone
              [1394; 1588] eq_refl (fun _ _ => eq_refl) start_batch)
    as (H1 & _ & H3 & _ & _ & H6).
  split; [exact H1 |]. split; [exact H3 | exact H6].
Defined.

(** The failure list and the run times of a batch only grow, by ids of the
    request, one entry at most per catchment. *)
Definition accounted (catch_id : list Z) (st st' : Batch) : Prop :=
  exists f t,
    failed st' = (failed st ++ f)%list /\
    runtime st' = (runtime st ++ t)%list /\
    incl f catch_id /\
    (List.length f + List.length t <= List.length catch_id)%nat.

Lemma accounted_refl (catch_id : list Z) (st : Batch) : accounted catch_id st st.
Proof.
  exists [], []. rewrite !app_nil_r. repeat split; [intros x [] | simpl; lia].
Qed.

Lemma accounted_step (i : Z) (rest : list Z) (st st1 st' : Batch) (f1 t1 : list Z) :
  failed st1 = (failed st ++ f1)%list ->
  runtime st1 = (runtime st ++ t1)%list ->
  incl f1 [i] -> (List.length f1 + List.length t1 <= 1)%nat ->
  accounted rest st1 st' -> accounted (i :: rest) st st'.
Proof.
  intros Hf Ht Hi Hl (f & t & Hf' & Ht' & Hincl & Hlen).
  exists (f1 ++ f)%list, (t1 ++ t)%list.
  rewrite Hf' , Ht', Hf, Ht, <- !app_assoc. repeat split.
  - intros x Hx. apply in_app_or in Hx. destruct Hx as [Hx | Hx].
    + destruct (Hi x Hx) as [<- | []]. now left.
    + right. now apply Hincl.
  - rewrite !length_app. simpl. lia.
Qed.

(** X15. However the batch ends, its failure list is the one it started
    with followed by ids of the request, its run times are the ones it
    started with followed by new ones, and the new failures and run times
    together are at most as many as the catchments requested: a catchment is
    recorded as failed or as timed, never as both. *)
Theorem process_catchments_accounting (w : World) (mode : string) (buffer : Q)
  (resolution : obj) (catch_id : list Z) (st : Batch) :
  accounted catch_id st (snd (process_catchments w mode buffer resolution catch_id st)).
Proof.
  revert st. induction catch_id as [| i rest IH]; intros st; simpl.
  - apply accounted_refl.
  - assert (Hstop : forall st1 f1 t1,
              failed st1 = (failed st ++ f1)%list ->
              runtime st1 = (runtime st ++ t1)%list ->
              incl f1 [i] -> (List.length f1 + List.length t1 <= 1)%nat ->
              accounted (i :: rest) st st1).
    { intros st1 f1 t1 Hf Ht Hi Hl.
      apply (accounted_step i rest st st1 st1 f1 t1 Hf Ht Hi Hl).
      exists [], []. rewrite !app_nil_r. repeat split; [intros x [] | simpl; lia]. }
    assert (Hnil : incl (@nil Z) [i]) by (intros x []).
    destruct (get_data_by_id w i) as [b | e]; simpl.
    2:{ apply (Hstop st [] []); rewrite ?app_nil_r; auto. }
    destruct (truthy resolution && intersects_lidar_extent w b buffer).
    + destruct (gen_boundary_file w i b) as [[] | e]; simpl.
      2:{ apply (Hstop st [] []); rewrite ?app_nil_r; auto. }
      destruct (single_process w i mode buffer (instructions st)) as [[single | e] s'].
      * destruct (store_hydro_to_db w (dem st) single) as [[[] | e] dem'].
        -- eapply (accounted_step i rest st _ _ [] [elapsed w i]); [| | | | apply IH];
             simpl; rewrite ?app_nil_r; auto.
        -- apply (Hstop _ [] [elapsed w i]); simpl; rewrite ?app_nil_r; auto.
      * eapply (accounted_step i rest st _ _ [i] []); [| | | | apply IH];
          simpl; rewrite ?app_nil_r; auto.
        intros x Hx. exact Hx.
    + destruct (is_none resolution);
        (eapply (accounted_step i rest st _ _ [] []); [| | | | apply IH];
         simpl; rewrite ?app_nil_r; auto).
Qed.

(** The ids one requested id stands for, tables unsorted. *)
Definition stands_for (w : World) (i : Z) : list Z :=
  if zmem i (catchment_ids w) then [i]
  else if zmem i (sdc_ids w) then get_split_catchment_by_id w i
  else [].

Lemma resolve_id_stands_for (w : World) (i : Z) :
  fst (resolve_id w (sorted (sdc_ids w)) (sorted (catchment_ids w)) i) = stands_for w i.
Proof.
  unfold resolve_id, stands_for. rewrite !zmem_sorted.
  destruct (zmem i (catchment_ids w)); [reflexivity |].
  destruct (zmem i (sdc_ids w)); simpl; [| reflexivity].
  destruct (get_split_catchment_by_id w i); reflexivity.
Qed.

(** X16. Explicit ids. Each requested id is resolved on its own, in the
    order of the request and as often as it is repeated: an id of the
    Catchment table stands for itself, also when it is in the SDC table; an id
    that is only in the SDC table stands for its subordinates as the table
    lists them; any other id stands for nothing. An area given besides the ids
    plays no part. *)
Theorem select_explicit_ids (w : World) (l : list Z) (i : Z) (area : option Q) :
  fst (select_catchments w (Some (Many l)) area) = Ok (flat_map (stands_for w) l) /\
  fst (select_catchments w (Some (One i)) area) = Ok (stands_for w i) /\
  (zmem i (catchment_ids w) = true -> stands_for w i = [i]) /\
  (zmem i (catchment_ids w) = false -> zmem i (sdc_ids w) = true ->
   stands_for w i = get_split_catchment_by_id w i).
Proof.
  split; [| split; [| split]].
  - unfold select_catchments. simpl. f_equal.
    induction l as [| x l IH]; simpl; [reflexivity |].
    now rewrite resolve_id_stands_for, IH.
  - unfold select_catchments. simpl. rewrite resolve_id_stands_for, app_nil_r. reflexivity.
  - intros H. unfold stands_for. now rewrite H.
  - intros H1 H2. unfold stands_for. now rewrite H1, H2.
Qed.

Lemma get_env_raises (environ : string -> option string) (var_name : string) (e : exn) :
  Utils.get_env environ var_name = Raise e -> e = Utils.env_missing var_name.
Proof.
  unfold Utils.get_env, Utils.get_env_variable.
  destruct (Utils.getenv environ var_name None) as [s |]; simpl.
  - destruct (String.eqb s ""); simpl; [| discriminate]. intros H. now injection H.
  - intros H. now injection H.
Qed.

Lemma read_env_missing (w : World) (keys : list string) (k : string) :
  In k keys ->
  environ w k = None \/ environ w k = Some "" ->
  exists k', In k' keys /\ read_env w keys = Raise (Utils.env_missing k').
Proof.
  intros Hin Hk. induction keys as [| k0 keys IH]; [destruct Hin |].
  simpl. destruct (Utils.get_env (environ w) k0) as [v | e] eqn:E; simpl.
  - destruct Hin as [-> | Hin].
    + rewrite (get_env_unset _ _ Hk) in E. discriminate.
    + destruct (IH Hin) as [k' [Hk' Hr]]. exists k'. split; [now right | exact Hr].
  - exists k0. split; [now left |]. now rewrite (get_env_raises _ _ _ E).
Qed.

(** X17. A required variable that is unset or empty (one of the five
    database credentials, DATA_DIR, DEM_DIR, INSTRUCTIONS_FILE) ends [run]
    with the missing-configuration [KeyError] of one of these variables,
    before the instructions file is rewritten and before anything is
    selected or processed. *)
Theorem run_missing_configuration (w : World) (file : obj)
  (dataset_table : list (string * Z)) (dem_table : list DemRecord)
  (catch_id : option catch_arg) (area : option Q) (mode : string) (buffer : Q)
  (gpkg : bool) (k : string) :
  In k (connection_keys ++ ["DATA_DIR"; "DEM_DIR"; "INSTRUCTIONS_FILE"])%list ->
  environ w k = None \/ environ w k = Some "" ->
  exists k',
    In k' (connection_keys ++ ["DATA_DIR"; "DEM_DIR"; "INSTRUCTIONS_FILE"])%list /\
    run w file dataset_table dem_table catch_id area mode buffer gpkg =
      mkOutcome (Some (Utils.env_missing k')) (mkBatch file dem_table [] [] []) file.
Proof.
  intros Hin Hk. destruct (read_env_missing w _ k Hin Hk) as [k' [Hk' Hr]].
  exists k'. split; [exact Hk' |]. unfold run. rewrite Hr. reflexivity.
Qed.

(** A deployment without a database password. *)
Definition no_password (w : World) : World :=
  mkWorld (fun v => if String.eqb v "POSTGRES_PASSWORD" then None else environ w v)
    (cpu_count w) (posix w) (joinpath w) (basename w) (path_exists w)
    (retrieve_dataset w) (retrieve_lidar w) (save_instructions w) (gen_dem w)
    (now w) (elapsed w) (sdc_ids w) (catchment_ids w) (get_data_by_id w)
    (intersects_lidar_extent w) (get_split_catchment_by_id w) (get_id_under_area w)
    (gen_boundary_file w) (export_dem_extent w).

Lemma run_missing_configuration_witness :
  exists k',
    In k' (connection_keys ++ ["DATA_DIR"; "DEM_DIR"; "INSTRUCTIONS_FILE"])%list /\
    run (no_password (demo_world (Some "land.geojson") one_dataset true)) base_instructions
      [("NZ10_WHope", 1)] [] (Some (One 1394)) None "api" 10 false =
      mkOutcome (Some (Utils.env_missing k')) (mkBatch base_instructions [] [] [] [])
        base_instructions.
Proof.
  apply (run_missing_configuration
           (no_password (demo_world (Some "land.geojson") one_dataset true))
           base_instructions [("NZ10_WHope", 1)] [] (Some (One 1394)) None "api" 10 false
           "POSTGRES_PASSWORD").
  - simpl. tauto.
  - left. reflexivity.
Defined.

(** X18. Called with neither [catch_id] nor [area], [run] does not reach
    its "Please provide catch_id or area_limit" error: once the configuration
    is read it rewrites the dataset mapping of the instructions file and then
    raises [TypeError] from comparing [None] with 0; no catchment is
    processed. *)
Theorem run_without_selection (w : World) (file file' : obj)
  (dataset_table : list (string * Z)) (dem_table : list DemRecord)
  (mode : string) (buffer : Q) (gpkg : bool) :
  read_env w (connection_keys ++ ["DATA_DIR"; "DEM_DIR"; "INSTRUCTIONS_FILE"])%list = Ok tt ->
  Utils.map_dataset_name_with_id dataset_table file = (Ok tt, file') ->
  run w file dataset_table dem_table None None mode buffer gpkg =
    mkOutcome
      (Some (TypeError "'<' not supported between instances of 'NoneType' and 'int'"))
      (mkBatch file dem_table [] [] []) file'.
Proof.
  intros Henv Hmap. unfold run. rewrite Henv, Hmap. reflexivity.
Qed.

Lemma run_without_selection_witness :
  run (demo_world (Some "land.geojson") one_dataset true) base_instructions
    [("NZ10_WHope", 1)] [] None None "api" 10 false =
  mkOutcome
    (Some (TypeError "'<' not supported between instances of 'NoneType' and 'int'"))
    (mkBatch base_instructions [] [] [] [])
    (snd (Utils.map_dataset_name_with_id [("NZ10_WHope", 1)] base_instructions)).
Proof.
  apply (run_without_selection (demo_world (Some "land.geojson") one_dataset true)
           base_instructions
           (snd (Utils.map_dataset_name_with_id [("NZ10_WHope", 1)] base_instructions))).
  - reflexivity.
  - reflexivity.
Defined.

Definition produced : obj :=
  snd (gen_instructions (demo_world (Some "land.geojson") one_dataset true)
         1394 "api" 10 base_instructions).

Definition earlier_run : list DemRecord :=
  [mkDem "1394" "old/1394_raw_dem.nc" "old/1394.nc" "old/1394_raw_extents.geojson"
         "2023-05-01 10:00:00" "2023-05-01 10:00:00"].

Lemma store_hydro_to_db_upsert_witness :
  exists r',
    In r' (snd (store_hydro_to_db (demo_world (Some "land.geojson") one_dataset true)
                  earlier_run (Some produced))) /\
    catch_id r' = "1394" /\ created_at r' = "2023-05-01 10:00:00" /\
    raw_dem_path r' = "datastorage/hydro_dem/1394/1394_raw_dem.nc" /\
    hydro_dem_path r' = "datastorage/hydro_dem/1394/1394.nc" /\
    extent_path r' = "datastorage/hydro_dem/1394/1394_raw_extents.geojson".
Proof.
  destruct (store_hydro_to_db_upsert (demo_world (Some "land.geojson") one_dataset true)
              earlier_run
              (snd (store_hydro_to_db (demo_world (Some "land.geojson") one_dataset true)
                      earlier_run (Some produced)))
              produced)
    as (cache & sub & raw_dem & result_dem & extents &
        Hcache & Hsub & Hraw & Hresult & Hextents & Hrows).
  - vm_compute. reflexivity.
  - assert (Hc : path_at produced "local_cache" = Ok "datastorage")
      by (vm_compute; reflexivity).
    assert (Hs : path_at produced "subfolder" = Ok "hydro_dem/1394")
      by (vm_compute; reflexivity).
    assert (Hr : path_at produced "raw_dem" = Ok "1394_raw_dem.nc")
      by (vm_compute; reflexivity).
    assert (Hd : path_at produced "result_dem" = Ok "1394.nc")
      by (vm_compute; reflexivity).
    assert (He : path_at produced "raw_dem_extents" = Ok "1394_raw_extents.geojson")
      by (vm_compute; reflexivity).
    rewrite Hc in Hcache. rewrite Hs in Hsub. rewrite Hr in Hraw.
    rewrite Hd in Hresult. rewrite He in Hextents.
    injection Hcache as <-. injection Hsub as <-. injection Hraw as <-.
    injection Hresult as <-. injection Hextents as <-.
    cbv zeta in Hrows.
    destruct Hrows as (_ & _ & _ & Hstored & _ & _ & _ & Hkeep & _).
    destruct (Hkeep (mkDem "1394" "old/1394_raw_dem.nc" "old/1394.nc"
                           "old/1394_raw_extents.geojson"
                           "2023-05-01 10:00:00" "2023-05-01 10:00:00")
                    (or_introl eq_refl) eq_refl) as (r' & Hin & Hid & Hcreated).
    exists r'. split; [exact Hin |]. split; [exact Hid |]. split; [exact Hcreated |].
    destruct (Hstored r' Hin Hid) as (H1 & H2 & H3 & _).
    split; [exact H1 |]. split; [exact H2 | exact H3].
Defined.

(** *** LINZ_API_KEY *)

(** The instructions hold a land path. *)
Definition land_present (s : obj) : Prop :=
  exists top inner paths land,
    s = PDict top /\
    lookup "instructions" top = Some (PDict inner) /\
    lookup "data_paths" inner = Some (PDict paths) /\
    lookup "land" paths = Some (PStr land).

Lemma assign_land_present (v : string) (s s' : obj) :
  assign data_paths "land" (PStr v) s = (Ok tt, s') -> land_present s'.
Proof.
  unfold assign, data_paths. simpl. unfold rbind, getitem, setitem.
  destruct s as [| | | | | | top]; try discriminate.
  destruct (lookup "instructions" top) as [c |] eqn:Etop; [| discriminate].
  destruct c as [| | | | | | inner]; try discriminate.
  destruct (lookup "data_paths" inner) as [c |] eqn:Ein; [| discriminate].
  destruct c as [| | | | | | paths]; try discriminate.
  intros H. injection H as <-.
  exists (dict_set "instructions"
            (PDict (dict_set "data_paths" (PDict (dict_set "land" (PStr v) paths)) inner)) top),
         (dict_set "data_paths" (PDict (dict_set "land" (PStr v) paths)) inner),
         (dict_set "land" (PStr v) paths), v.
  repeat split; apply Utils.lookup_dict_set_eq.
Qed.

Lemma gen_land_present (w : World) (s s' : obj) :
  gen_land w s = (Ok tt, s') -> land_present s'.
Proof.
  unfold gen_land, bind, lift, when, env, ret.
  destruct (Utils.get_env (environ w) "LAND_FILE") as [v |] eqn:E; [| discriminate].
  rewrite (get_env_not_none _ _ _ E). simpl.
  apply assign_land_present.
Qed.

Lemma assign_datasets_present (v : obj) (s : obj) :
  land_present s -> land_present (snd (assign ["instructions"] "datasets" v s)).
Proof.
  intros (top & inner & paths & land & -> & Htop & Hin & Hland).
  unfold assign. simpl. rewrite Htop. simpl.
  exists (dict_set "instructions" (PDict (dict_set "datasets" v inner)) top),
         (dict_set "datasets" v inner), paths, land.
  repeat split.
  - apply Utils.lookup_dict_set_eq.
  - rewrite Utils.lookup_dict_set_ne by discriminate. exact Hin.
  - exact Hland.
Qed.

Definition with_linz_key (w : World) (key : option string) : World :=
  mkWorld (fun v => if String.eqb v "LINZ_API_KEY" then key else environ w v)
    (cpu_count w) (posix w) (joinpath w) (basename w) (path_exists w)
    (retrieve_dataset w) (retrieve_lidar w) (save_instructions w) (gen_dem w)
    (now w) (elapsed w) (sdc_ids w) (catchment_ids w) (get_data_by_id w)
    (intersects_lidar_extent w) (get_split_catchment_by_id w) (get_id_under_area w)
    (gen_boundary_file w) (export_dem_extent w).

Lemma read_land (s : obj) :
  land_present s -> exists land, read_get data_paths "land" s = (Ok (PStr land), s).
Proof.
  intros (top & inner & paths & land & -> & Htop & Hin & Hland).
  exists land. unfold read_get, data_paths. simpl. rewrite Htop. simpl. rewrite Hin. simpl.
  now rewrite Hland.
Qed.

Definition preserves (P : obj -> Prop) {A} (m : M A) : Prop :=
  forall s r s', P s -> m s = (r, s') -> P s'.

Lemma bind_cong (P : obj -> Prop) {A B} (m : M A) (k1 k2 : A -> M B) (s : obj) :
  P s -> preserves P m ->
  (forall a s', P s' -> k1 a s' = k2 a s') ->
  bind m k1 s = bind m k2 s.
Proof.
  intros Hs Hm Hk. unfold bind. destruct (m s) as [[a | e] s'] eqn:E; [| reflexivity].
  apply Hk. exact (Hm s (Ok a) s' Hs E).
Qed.

Lemma bind_eq {A B} (m1 m2 : M A) (k1 k2 : A -> M B) (s : obj) :
  m1 s = m2 s -> (forall a s', k1 a s' = k2 a s') -> bind m1 k1 s = bind m2 k2 s.
Proof.
  intros Hm Hk. unfold bind. rewrite Hm. destruct (m2 s) as [[a | e] s']; [apply Hk | reflexivity].
Qed.

Lemma bind_post {A B} (m : M A) (k1 k2 : A -> M B) (s : obj) :
  (forall a s', m s = (Ok a, s') -> k1 a s' = k2 a s') -> bind m k1 s = bind m k2 s.
Proof.
  intros Hk. unfold bind. destruct (m s) as [[a | e] s']; [now apply Hk | reflexivity].
Qed.

Lemma bind_value {A B} (m : M A) (k : A -> M B) (s s' : obj) (a : A) :
  m s = (Ok a, s') -> bind m k s = k a s'.
Proof. intros H. unfold bind. now rewrite H. Qed.

Lemma read_get_preserves (P : obj -> Prop) (ks : list string) (k : string) :
  preserves P (read_get ks k).
Proof. intros s r s' Hs H. unfold read_get in H. injection H as _ <-. exact Hs. Qed.

Lemma when_assign_datasets_preserves (b : bool) (v : obj) :
  preserves land_present (when b (assign ["instructions"] "datasets" v)).
Proof.
  intros s r s' Hs H. destruct b; simpl in H.
  - pose proof (assign_datasets_present v s Hs) as Hp. rewrite H in Hp. exact Hp.
  - unfold ret in H. injection H as _ <-. exact Hs.
Qed.

Lemma gen_datasets_linz (w : World) (key : option string) (f mode : string) (buffer : Q) (s : obj) :
  land_present s ->
  gen_datasets (with_linz_key w key) f mode buffer s = gen_datasets w f mode buffer s.
Proof.
  intros Hs. unfold gen_datasets.
  apply (bind_cong land_present); [exact Hs | apply read_get_preserves |].
  intros ds s1 H1.
  apply (bind_cong land_present); [exact H1 | apply when_assign_datasets_preserves |].
  intros _ s2 H2.
  destruct (read_land s2 H2) as [land Hland].
  apply bind_eq; [| intros; reflexivity].
  destruct (String.eqb mode "api"); simpl; [| reflexivity].
  rewrite !(bind_value _ _ _ _ _ Hland). reflexivity.
Qed.

Lemma gen_instructions_linz (w : World) (key : option string) (index : Z)
  (mode : string) (buffer : Q) (s : obj) :
  gen_instructions (with_linz_key w key) index mode buffer s =
  gen_instructions w index mode buffer s.
Proof.
  unfold gen_instructions.
  change (gen_paths (with_linz_key w key) index) with (gen_paths w index).
  apply bind_eq; [reflexivity |]. intros [data_dir subfolder] s1.
  change (gen_land (with_linz_key w key)) with (gen_land w).
  apply bind_post. intros [] s2 Hland. apply gen_land_present in Hland.
  apply bind_eq; [| intros; reflexivity].
  apply gen_datasets_linz. exact Hland.
Qed.

(** X20. LINZ_API_KEY is never read when instructions are assembled: by the
    time the api branch looks for a missing land path, [gen_instructions] has
    either raised or written the land path itself, so the branch that reads
    the key and adds the LINZ land layer is never taken. [gen_instructions]
    and [single_process] do the same whatever the variable holds, unset
    included. *)
Theorem linz_api_key_is_never_read (w : World) (key : option string) (index : Z)
  (mode : string) (buffer : Q) (s : obj) :
  gen_instructions (with_linz_key w key) index mode buffer s =
    gen_instructions w index mode buffer s /\
  single_process (with_linz_key w key) index mode buffer s =
    single_process w index mode buffer s.
Proof.
  split; [apply gen_instructions_linz |].
  unfold single_process.
  apply bind_eq; [apply gen_instructions_linz | intros; reflexivity].
Qed.

End Process.

(* ================================================================== *)
(** ** scripts/datum_lvd_nzvd2016.py: the finish of a special directory *)
(* ================================================================== *)

Module Datum.

(** The entries of the source directory and of the output directory
    [src_dir / 'NZVD2016'], by name. *)
Record Dirs : Type := mkDirs {
  src_files : list string;
  dest_files : list string
}.

(** The position of the last dot of a name. *)
Fixpoint rfind_dot (s : string) (pos : nat) (last : option nat) : option nat :=
  match s with
  | EmptyString => last
  | String c s' =>
      rfind_dot s' (S pos) (if Ascii.eqb c "."%char then Some pos else last)
  end.

(** [Path(name).stem]: the name without its last suffix; a dot that opens
    or closes the name starts no suffix. *)
Definition stem (name : string) : string :=
  match rfind_dot name 0 None with
  | Some i =>
      if ((0 <? i) && (i <? String.length name - 1))%nat
      then String.substring 0 i name
      else name
  | None => name
  end.

(** [dir.glob('*' + suffix)] *)
Definition glob (suffix : string) (entries : list string) : list string :=
  filter (fun f => endswith f suffix) entries.

Definition without (f : string) (entries : list string) : list string :=
  filter (fun g => negb (String.eqb g f)) entries.

(** A file written or moved into a directory replaces an entry of its
    name. *)
Definition put (f : string) (entries : list string) : list string :=
  f :: without f entries.

(** [f.rename(dir / new)] inside one directory: the entry [f] goes, an
    entry [new] is replaced.  Every file the loops below rename or delete is
    still there when its turn comes: they only take away the files already
    handled and names of the other extension. *)
Definition rename (f new : string) (entries : list string) : list string :=
  put new (without f entries).

(** The three directory names with the in-place treatment. *)
Definition is_special (src_dir : string) : bool :=
  contains "NZ10_WHope" src_dir || contains "NZ10_CAlpine" src_dir
  || contains "NZ10_Wellington" src_dir.

(** Lines 39 to 43: [.laz] inputs take the suffix [.las]. *)
Definition rename_inputs (src : list string) : list string :=
  fold_left (fun entries f => rename f (stem f ++ ".las") entries) (glob ".laz" src) src.

(** Lines 125 and 126: the [.las] files take the suffix [.laz] back. *)
Definition restore (las_files src : list string) : list string :=
  fold_left (fun entries f => rename f (stem f ++ ".laz") entries) las_files src.

Definition mismatch : exn :=
  Exception "Number of laz files not equal to number of pdal commands!".

(** Lines 119 to 134, once every command of the pool has returned. *)
Definition finish_special (fs : Dirs) (pdal_cmd_list : list string) : result unit * Dirs :=
  let laz_files := glob ".laz" (dest_files fs) in
  let las_files := glob ".las" (src_files fs) in
  if negb (List.length laz_files =? List.length pdal_cmd_list)%nat then
    if (List.length laz_files =? 0)%nat
    then (Raise mismatch, mkDirs (restore las_files (src_files fs)) (dest_files fs))
    else (Raise mismatch, fs)
  else
    let src := fold_left (fun entries f => put f entries) laz_files (src_files fs) in
    let dest := fold_left (fun entries f => without f entries) laz_files (dest_files fs) in
    let src := fold_left (fun entries f => without f entries) las_files src in
    match dest with
    | [] => (Ok tt, mkDirs (without "NZVD2016" src) dest)
    | _ :: _ => (Raise (OSError "Directory not empty"), mkDirs src dest)
    end.

(** The script from the pool on: [pool] runs the commands on the
    directories; one failing command raises out of [pool.map].  The log of
    the commands is written last. *)
Definition finish (pool : Dirs -> list string -> result unit * Dirs)
  (src_dir : string) (fs : Dirs) (pdal_cmd_list : list string) : result unit * Dirs :=
  match pool fs pdal_cmd_list with
  | (Raise e, fs) => (Raise e, fs)
  | (Ok _, fs) =>
      let write_log fs := mkDirs (put "datum.log" (src_files fs)) (dest_files fs) in
      if is_special src_dir then
        match finish_special fs pdal_cmd_list with
        | (Raise e, fs) => (Raise e, fs)
        | (Ok _, fs) => (Ok tt, write_log fs)
        end
      else (Ok tt, write_log fs)
  end.

(** *** Names and their suffixes *)

Lemma length_app (s t : string) :
  String.length (s ++ t) = (String.length s + String.length t)%nat.
Proof. induction s as [| c s IH]; simpl; [reflexivity | now rewrite IH]. Qed.

Lemma substring_all (t : string) : String.substring 0 (String.length t) t = t.
Proof. induction t as [| c t IH]; simpl; [reflexivity | now rewrite IH]. Qed.

Lemma substring_suffix (s t : string) :
  String.substring (String.length s) (String.length t) (s ++ t) = t.
Proof. induction s as [| c s IH]; simpl; [apply substring_all | exact IH]. Qed.

Lemma substring_prefix (s t : string) :
  String.substring 0 (String.length s) (s ++ t) = s.
Proof.
  induction s as [| c s IH]; simpl.
  - destruct t; reflexivity.
  - now rewrite IH.
Qed.

(** A name that ends in one suffix ends in another of the same length only
    if they are the same. *)
Lemma endswith_app (s t t' : string) :
  String.length t = String.length t' ->
  endswith (s ++ t) t' = String.eqb t t'.
Proof.
  intros Hlen. unfold endswith. rewrite length_app, <- Hlen.
  replace (String.length s + String.length t - String.length t)%nat
    with (String.length s) by lia.
  rewrite substring_suffix.
  replace (String.length t <=? String.length s + String.length t)%nat with true
    by (symmetry; apply Nat.leb_le; lia).
  reflexivity.
Qed.

Lemma rfind_dot_app (s t : string) (pos : nat) (last : option nat) :
  rfind_dot (s ++ t) pos last = rfind_dot t (pos + String.length s) (rfind_dot s pos last).
Proof.
  revert pos last. induction s as [| c s IH]; intros pos last; simpl.
  - now rewrite Nat.add_0_r.
  - rewrite IH. now rewrite Nat.add_succ_r.
Qed.

(** The stem of a name with a suffix of three letters after a stem that is
    not empty. *)
Lemma stem_suffix (s : string) (a b c : ascii) :
  s <> "" -> Ascii.eqb a "."%char = false -> Ascii.eqb b "."%char = false ->
  Ascii.eqb c "."%char = false ->
  stem (s ++ String "."%char (String a (String b (String c EmptyString)))) = s.
Proof.
  intros Hs Ha Hb Hc. unfold stem. rewrite rfind_dot_app. simpl.
  rewrite Ha, Hb, Hc. rewrite length_app. simpl.
  assert (Hpos : (0 < String.length s)%nat).
  { destruct s; [contradiction | simpl; lia]. }
  replace (0 <? String.length s)%nat with true by (symmetry; apply Nat.ltb_lt; lia).
  replace (String.length s <? String.length s + 4 - 1)%nat with true
    by (symmetry; apply Nat.ltb_lt; lia).
  simpl. apply substring_prefix.
Qed.

(** *** What a loop of renames leaves *)

Section Renames.

Variable from to : string.
Hypothesis same_length : String.length from = String.length to.
Hypothesis different : String.eqb to from = false.

(** The loop renames every name of [l] from the suffix [from] to the
    suffix [to]. *)
Definition renames (l entries : list string) : list string :=
  fold_left (fun entries f => rename f (stem f ++ to) entries) l entries.

Lemma In_without (y f : string) (entries : list string) :
  In y (without f entries) <-> In y entries /\ y <> f.
Proof.
  unfold without. rewrite filter_In, negb_true_iff, String.eqb_neq. reflexivity.
Qed.

Lemma In_rename (y f new : string) (entries : list string) :
  In y (rename f new entries) <-> y = new \/ (In y entries /\ y <> f).
Proof.
  unfold rename, put. simpl. rewrite !In_without. split.
  - intros [H | [[H1 H2] H3]]; [left; now symmetry | right; now split].
  - intros [H | [H1 H2]]; [left; now symmetry |].
    destruct (string_dec y new) as [-> | Hne]; [now left | right; repeat split; assumption].
Qed.

Lemma target_not_source (f g : string) :
  endswith g from = true -> stem f ++ to <> g.
Proof.
  intros Hg Heq. subst g. rewrite endswith_app in Hg by (symmetry; exact same_length).
  congruence.
Qed.

Lemma renames_keeps (y : string) (l entries : list string) :
  (forall f, In f l -> y <> f) -> In y entries -> In y (renames l entries).
Proof.
  unfold renames. revert entries. induction l as [| f l IH]; intros entries Hl Hy; simpl.
  - exact Hy.
  - apply IH.
    + intros f' Hf'. apply Hl. now right.
    + apply In_rename. right. split; [exact Hy | apply Hl; now left].
Qed.

(** Every name of the list is in the directory under its new suffix. *)
Lemma renames_adds (x : string) (l entries : list string) :
  (forall f, In f l -> endswith f from = true) ->
  In x l -> In (stem x ++ to) (renames l entries).
Proof.
  unfold renames. revert entries. induction l as [| f l IH]; intros entries Hl Hx; simpl.
  - destruct Hx.
  - destruct Hx as [-> | Hx].
    + apply (renames_keeps (stem x ++ to) l).
      * intros f' Hf'. apply target_not_source. apply Hl. now right.
      * apply In_rename. now left.
    + apply IH; [| exact Hx]. intros f' Hf'. apply Hl. now right.
Qed.

(** An entry left by the loop is a new name, or an old entry the loop did
    not rename. *)
Lemma renames_origin (y : string) (l entries : list string) :
  In y (renames l entries) ->
  (exists f, In f l /\ y = stem f ++ to) \/ (In y entries /\ ~ In y l).
Proof.
  unfold renames. revert entries. induction l as [| f l IH]; intros entries; simpl.
  - intros Hy. right. split; [exact Hy | tauto].
  - intros Hy. destruct (IH _ Hy) as [[f' [Hf' ->]] | [Hin Hnot]].
    + left. exists f'. split; [now right | reflexivity].
    + apply In_rename in Hin. destruct Hin as [-> | [Hin Hne]].
      * left. exists f. split; [now left | reflexivity].
      * right. split; [exact Hin |]. intros [<- | Hl]; [now apply Hne | now apply Hnot].
Qed.

(** After every name with the suffix [from] was renamed none is left. *)
Lemma renames_clears (y : string) (entries : list string) :
  In y (renames (glob from entries) entries) -> endswith y from = false.
Proof.
  intros Hy. apply renames_origin in Hy. destruct Hy as [[f [_ ->]] | [Hin Hnot]].
  - rewrite endswith_app by exact (eq_sym same_length). exact different.
  - destruct (endswith y from) eqn:E; [| reflexivity].
    exfalso. apply Hnot. unfold glob. apply filter_In. now split.
Qed.

End Renames.

Lemma restore_renames (las_files src : list string) :
  restore las_files src = renames ".laz" las_files src.
Proof. reflexivity. Qed.

Lemma rename_inputs_renames (src : list string) :
  rename_inputs src = renames ".las" (glob ".laz" src) src.
Proof. reflexivity. Qed.

Lemma glob_suffix (suffix f : string) (entries : list string) :
  In f (glob suffix entries) -> endswith f suffix = true.
Proof. unfold glob. intros H. apply filter_In in H. tauto. Qed.

(** An input that was renamed from [.laz] to [.las] gets its own name back
    when the directory is restored. *)
Lemma restore_rename_inputs (src : list string) (s : string) :
  s <> "" -> In (s ++ ".laz") src ->
  In (s ++ ".laz")
     (restore (glob ".las" (rename_inputs src)) (rename_inputs src)).
Proof.
  intros Hs Hin.
  assert (Hlas : In (s ++ ".las") (rename_inputs src)).
  { rewrite rename_inputs_renames.
    rewrite <- (stem_suffix s "l" "a" "z" Hs eq_refl eq_refl eq_refl) at 1.
    apply (renames_adds ".laz" ".las" eq_refl eq_refl).
    - intros f. apply glob_suffix.
    - unfold glob. apply filter_In. split; [exact Hin |].
      now rewrite endswith_app. }
  rewrite restore_renames.
  rewrite <- (stem_suffix s "l" "a" "s" Hs eq_refl eq_refl eq_refl) at 1.
  apply (renames_adds ".las" ".laz" eq_refl eq_refl).
  - intros f. apply glob_suffix.
  - unfold glob. apply filter_In. split; [exact Hlas |].
    now rewrite endswith_app.
Qed.

(** C9. In the special-directory branch, when the number of [.laz] files
    in the output directory differs from the number of issued commands the run
    fails.  With no output file at all the [.las] files of the source
    directory are first renamed back to [.laz]: each of them is there under
    that suffix and no [.las] name is left; with some output files, though not
    as many as commands, both directories are left as they are. *)
Theorem special_directory_rollback (fs : Dirs) (pdal_cmd_list : list string) :
  List.length (glob ".laz" (dest_files fs)) <> List.length pdal_cmd_list ->
  fst (finish_special fs pdal_cmd_list) = Raise mismatch /\
  (glob ".laz" (dest_files fs) = [] ->
   snd (finish_special fs pdal_cmd_list) =
     mkDirs (restore (glob ".las" (src_files fs)) (src_files fs)) (dest_files fs) /\
   (forall f, In f (src_files fs) -> endswith f ".las" = true ->
      In (stem f ++ ".laz") (src_files (snd (finish_special fs pdal_cmd_list)))) /\
   (forall f, In f (src_files (snd (finish_special fs pdal_cmd_list))) ->
      endswith f ".las" = false)) /\
  (glob ".laz" (dest_files fs) <> [] ->
   snd (finish_special fs pdal_cmd_list) = fs).
Proof.
  intros Hne. unfold finish_special.
  apply Nat.eqb_neq in Hne. rewrite Hne. simpl.
  destruct (glob ".laz" (dest_files fs)) as [| laz laz_files] eqn:Elaz; simpl.
  - split; [reflexivity |]. split; [| intros H; now contradiction H].
    intros _. split; [reflexivity |]. split.
    + intros f Hin Hlas. rewrite restore_renames.
      apply (renames_adds ".las" ".laz" eq_refl eq_refl).
      * intros f'. apply glob_suffix.
      * unfold glob. apply filter_In. now split.
    + intros f Hin. rewrite restore_renames in Hin.
      exact (renames_clears ".las" ".laz" eq_refl eq_refl f (src_files fs) Hin).
  - split; [reflexivity |]. split; [discriminate |]. reflexivity.
Qed.

(** Two inputs and two commands: no output restores both names, one output
    leaves the directories alone; either way the run fails. *)
Definition renamed_inputs : list string := ["tile1.las"; "tile2.las"; "NZVD2016"].

Lemma special_directory_rollback_witness :
  finish_special (mkDirs renamed_inputs []) ["pdal 1"; "pdal 2"] =
    (Raise mismatch, mkDirs ["tile2.laz"; "tile1.laz"; "NZVD2016"] []) /\
  finish_special (mkDirs renamed_inputs ["tile1.laz"]) ["pdal 1"; "pdal 2"] =
    (Raise mismatch, mkDirs renamed_inputs ["tile1.laz"]).
Proof.
  split.
  - destruct (special_directory_rollback (mkDirs renamed_inputs []) ["pdal 1"; "pdal 2"])
      as [Hfail [Hzero _]]; [simpl; lia |].
    destruct (Hzero eq_refl) as [Hdirs _].
    rewrite (surjective_pairing (finish_special _ _)), Hfail, Hdirs. reflexivity.
  - destruct (special_directory_rollback (mkDirs renamed_inputs ["tile1.laz"])
                ["pdal 1"; "pdal 2"]) as [Hfail [_ Hsome]]; [simpl; lia |].
    rewrite (surjective_pairing (finish_special _ _)), Hfail, Hsome; [reflexivity |].
    discriminate.
Defined.

(** The branch is reached only when every command returned: a command that
    fails raises out of the pool, and the script ends there with the
    directories as the pool left them. *)
Lemma finish_pool_failure (pool : Dirs -> list string -> result unit * Dirs)
  (src_dir : string) (fs fs' : Dirs) (pdal_cmd_list : list string) (e : exn) :
  pool fs pdal_cmd_list = (Raise e, fs') ->
  finish pool src_dir fs pdal_cmd_list = (Raise e, fs').
Proof. intros H. unfold finish. now rewrite H. Qed.

Lemma finish_special_directory (pool : Dirs -> list string -> result unit * Dirs)
  (src_dir : string) (fs fs' : Dirs) (pdal_cmd_list : list string) :
  is_special src_dir = true ->
  pool fs pdal_cmd_list = (Ok tt, fs') ->
  List.length (glob ".laz" (dest_files fs')) <> List.length pdal_cmd_list ->
  finish pool src_dir fs pdal_cmd_list = finish_special fs' pdal_cmd_list.
Proof.
  intros Hs Hp Hne. unfold finish. rewrite Hp, Hs.
  unfold finish_special. apply Nat.eqb_neq in Hne. rewrite Hne. simpl.
  destruct (List.length (glob ".laz" (dest_files fs')) =? 0)%nat; reflexivity.
Qed.

(* ------------------------------------------------------------------ *)
(** *** More of the script: the choice of directory and grid, the moves *)
(* ------------------------------------------------------------------ *)

(** Lines 34 and 35: the directory chosen by the command-line index.
    A Python list takes a negative index from its end. *)
Definition select_dir (path_list : list string) (index : Z) : result string :=
  let n := Z.of_nat (List.length path_list) in
  if index <? n then
    let position := if index <? 0 then index + n else index in
    if position <? 0 then Raise (IndexError "list index out of range")
    else match nth_error path_list (Z.to_nat position) with
         | Some src_dir => Ok src_dir
         | None => Raise (IndexError "list index out of range")
         end
  else Raise (AssertionError "Input Index out of range!").

(** X21. The index check of the script only bounds the index from above:
    an index at or beyond the length of the list fails the assertion, an index
    from 0 selects its directory, a negative index down to minus the length
    selects a directory counted from the end of the list, and one below that
    raises [IndexError]. *)
Theorem select_dir_index (path_list : list string) (index : Z) :
  let n := Z.of_nat (List.length path_list) in
  (n <= index -> exists msg, select_dir path_list index = Raise (AssertionError msg)) /\
  (0 <= index < n ->
   exists src_dir, nth_error path_list (Z.to_nat index) = Some src_dir /\
                   select_dir path_list index = Ok src_dir) /\
  (- n <= index < 0 ->
   exists src_dir, nth_error path_list (Z.to_nat (index + n)) = Some src_dir /\
                   select_dir path_list index = Ok src_dir) /\
  (index < - n -> exists msg, select_dir path_list index = Raise (IndexError msg)).
Proof.
  unfold select_dir. cbv zeta.
  remember (Z.of_nat (List.length path_list)) as n eqn:Hn.
  assert (Hnth : forall p, 0 <= p < n ->
            exists src_dir, nth_error path_list (Z.to_nat p) = Some src_dir).
  { intros p Hp. destruct (nth_error path_list (Z.to_nat p)) as [d |] eqn:E; [eauto |].
    apply nth_error_None in E. lia. }
  split; [| split; [| split]].
  - intros H. replace (index <? n) with false by (symmetry; apply Z.ltb_ge; lia).
    eexists. reflexivity.
  - intros H. replace (index <? n) with true by (symmetry; apply Z.ltb_lt; lia).
    replace (index <? 0) with false by (symmetry; apply Z.ltb_ge; lia).
    replace (index <? 0) with false by (symmetry; apply Z.ltb_ge; lia).
    destruct (Hnth index H) as [d Hd]. exists d. now rewrite Hd.
  - intros H. replace (index <? n) with true by (symmetry; apply Z.ltb_lt; lia).
    replace (index <? 0) with true by (symmetry; apply Z.ltb_lt; lia).
    replace (index + n <? 0) with false by (symmetry; apply Z.ltb_ge; lia).
    destruct (Hnth (index + n)) as [d Hd]; [lia |]. exists d. now rewrite Hd.
  - intros H. replace (index <? n) with true by (symmetry; apply Z.ltb_lt; lia).
    replace (index <? 0) with true by (symmetry; apply Z.ltb_lt; lia).
    replace (index + n <? 0) with true by (symmetry; apply Z.ltb_lt; lia).
    eexists. reflexivity.
Qed.

Definition gtxfile_Moturiki_1953 : string := "./proj-datumgrid-nz/files/moturiki_1953.gtx".
Definition gtxfile_Auckland_1946 : string := "./proj-datumgrid-nz/files/auckht1946-nzvd2016.gtx".
Definition gtxfile_Lyttleton_1937 : string := "./proj-datumgrid-nz/files/lyttht1937-nzvd2016.gtx".
Definition gtxfile_Wellington_1953 : string := "./proj-datumgrid-nz/files/wellht1953-nzvd2016.gtx".

(** Lines 51 to 58: the grid of a directory. *)
Definition gtxfile (src_dir : string) : string :=
  if contains "NZ10_WHope" src_dir || contains "NZ10_CAlpine" src_dir
  then gtxfile_Lyttleton_1937
  else if contains "NZ10_Wellington" src_dir then gtxfile_Wellington_1953
  else if contains "Auckland_1946" src_dir then gtxfile_Auckland_1946
  else gtxfile_Moturiki_1953.

(** X22. The grid and the treatment of a directory go together: the
    directories handled in place are exactly those transformed with the
    Lyttelton 1937 or the Wellington 1953 grid, and every other directory gets
    the Auckland 1946 grid when its name says so and the Moturiki 1953 grid
    otherwise; a name of the first kind keeps its grid even if it also
    mentions Auckland_1946. *)
Theorem gtxfile_of_special (src_dir : string) :
  (is_special src_dir = true <->
   gtxfile src_dir = gtxfile_Lyttleton_1937 \/ gtxfile src_dir = gtxfile_Wellington_1953) /\
  (is_special src_dir = false ->
   gtxfile src_dir = if contains "Auckland_1946" src_dir
                     then gtxfile_Auckland_1946 else gtxfile_Moturiki_1953).
Proof.
  unfold is_special, gtxfile.
  destruct (contains "NZ10_WHope" src_dir), (contains "NZ10_CAlpine" src_dir),
    (contains "NZ10_Wellington" src_dir); simpl;
    (split; [split; [intros _; auto | intros _; reflexivity] | discriminate]) ||
    (split; [split; [discriminate |] | intros _; reflexivity]).
  destruct (contains "Auckland_1946" src_dir); intros [H | H]; discriminate H.
Qed.

(** *** The moves of a run that produced every file *)

Lemma In_fold_without (x : string) (l entries : list string) :
  In x (fold_left (fun entries f => without f entries) l entries) <->
  In x entries /\ ~ In x l.
Proof.
  revert entries. induction l as [| f l IH]; intros entries; simpl; [tauto |].
  rewrite IH, In_without. split.
  - intros [[H1 H2] H3]. split; [exact H1 |]. intros [<- | H]; [now apply H2 | now apply H3].
  - intros [H1 H2]. repeat split; [exact H1 | | ]; intros H; apply H2; [left; now symmetry | now right].
Qed.

Lemma In_fold_put (x : string) (l entries : list string) :
  In x (fold_left (fun entries f => put f entries) l entries) <->
  In x l \/ In x entries.
Proof.
  revert entries. induction l as [| f l IH]; intros entries; simpl; [tauto |].
  rewrite IH. unfold put. simpl. rewrite In_without. split.
  - intros [H | [H | [H _]]]; [left; now right | left; now left | now right].
  - intros [[H | H] | H]; [right; now left | now left |].
    destruct (string_dec x f) as [-> | Hne]; [right; now left | right; right; now split].
Qed.

Lemma endswith_one_suffix (s t t' : string) :
  String.length t = String.length t' ->
  endswith s t = true -> endswith s t' = true -> t = t'.
Proof.
  unfold endswith. intros Hlen H1 H2. rewrite <- Hlen in H2.
  apply andb_true_iff in H1. apply andb_true_iff in H2.
  destruct H1 as [_ H1], H2 as [_ H2].
  apply String.eqb_eq in H1. apply String.eqb_eq in H2. congruence.
Qed.

Lemma no_entries (l : list string) : (forall x, ~ In x l) -> l = [].
Proof. destruct l as [| x l]; [reflexivity |]. intros H. exfalso. apply (H x). now left. Qed.

(** X23. When there are as many [.laz] outputs as commands, every output is
    moved into the source directory and every [.las] file of the source
    directory is deleted, before the output directory is removed. If the
    output directory holds nothing else the run goes on with the output
    directory gone; if it holds another entry, removing it raises [OSError],
    with the inputs already deleted. *)
Theorem finish_special_moves (fs : Dirs) (pdal_cmd_list : list string) :
  List.length (glob ".laz" (dest_files fs)) = List.length pdal_cmd_list ->
  (forall f, In f (src_files (snd (finish_special fs pdal_cmd_list))) ->
     endswith f ".las" = false) /\
  (forall f, In f (glob ".laz" (dest_files fs)) ->
     In f (src_files (snd (finish_special fs pdal_cmd_list)))) /\
  ((forall f, In f (dest_files fs) -> endswith f ".laz" = true) ->
   fst (finish_special fs pdal_cmd_list) = Ok tt /\
   dest_files (snd (finish_special fs pdal_cmd_list)) = [] /\
   ~ In "NZVD2016" (src_files (snd (finish_special fs pdal_cmd_list)))) /\
  ((exists f, In f (dest_files fs) /\ endswith f ".laz" = false) ->
   exists msg, fst (finish_special fs pdal_cmd_list) = Raise (OSError msg)).
Proof.
  intros Hlen. unfold finish_special. apply Nat.eqb_eq in Hlen. rewrite Hlen. simpl.
  set (laz := glob ".laz" (dest_files fs)).
  set (las := glob ".las" (src_files fs)).
  set (src1 := fold_left (fun entries f => put f entries) laz (src_files fs)).
  set (src2 := fold_left (fun entries f => without f entries) las src1).
  set (dest1 := fold_left (fun entries f => without f entries) laz (dest_files fs)).
  assert (Hlaz : forall f, In f laz -> endswith f ".las" = false).
  { intros f Hf. apply glob_suffix in Hf.
    destruct (endswith f ".las") eqn:E; [| reflexivity].
    assert (H : ".laz" = ".las") by (apply (endswith_one_suffix f); auto).
    discriminate H. }
  assert (Hsrc2 : forall f, In f src2 <-> (In f laz \/ In f (src_files fs)) /\ ~ In f las).
  { intros f. unfold src2, src1. now rewrite In_fold_without, In_fold_put. }
  assert (Hclean : forall f, In f src2 -> endswith f ".las" = false).
  { intros f Hf. apply Hsrc2 in Hf. destruct Hf as [[Hf | Hf] Hn]; [now apply Hlaz |].
    destruct (endswith f ".las") eqn:E; [| reflexivity].
    exfalso. apply Hn. unfold las, glob. apply filter_In. now split. }
  assert (Hmoved : forall f, In f laz -> In f src2).
  { intros f Hf. apply Hsrc2. split; [now left |].
    intros Hl. apply glob_suffix in Hl. rewrite (Hlaz f Hf) in Hl. discriminate. }
  assert (Hdest : forall f, In f dest1 <-> In f (dest_files fs) /\ endswith f ".laz" = false).
  { intros f. unfold dest1. rewrite In_fold_without. unfold laz, glob. rewrite filter_In.
    split.
    - intros [H1 H2]. split; [exact H1 |].
      destruct (endswith f ".laz"); [exfalso; apply H2; now split | reflexivity].
    - intros [H1 H2]. split; [exact H1 |]. intros [_ H3]. congruence. }
  split; [| split; [| split]].
  - intros f. destruct dest1; simpl; [| apply Hclean].
    intros Hf. apply In_without in Hf. apply Hclean. tauto.
  - intros f Hf. destruct dest1; simpl; [| now apply Hmoved].
    apply In_without. split; [now apply Hmoved |].
    intros ->. apply glob_suffix in Hf. discriminate Hf.
  - intros Hall.
    assert (Hd : dest1 = []).
    { apply no_entries. intros x Hx. apply Hdest in Hx. destruct Hx as [Hx Hn].
      rewrite (Hall x Hx) in Hn. discriminate. }
    rewrite Hd. simpl. split; [reflexivity |]. split; [reflexivity |].
    intros Hin. apply In_without in Hin. now destruct Hin.
  - intros [f [Hf Hn]].
    assert (Hd : In f dest1) by (apply Hdest; now split).
    destruct dest1; [destruct Hd |]. simpl. eexists. reflexivity.
Qed.

Lemma finish_special_moves_witness :
  finish_special (mkDirs renamed_inputs ["tile1.laz"; "tile2.laz"]) ["pdal 1"; "pdal 2"] =
    (Ok tt, mkDirs ["tile2.laz"; "tile1.laz"] []) /\
  (forall f, In f (src_files (snd (finish_special
                                     (mkDirs renamed_inputs ["tile1.laz"; "tile2.laz"])
                                     ["pdal 1"; "pdal 2"]))) ->
     endswith f ".las" = false).
Proof.
  split; [reflexivity |].
  apply (finish_special_moves (mkDirs renamed_inputs ["tile1.laz"; "tile2.laz"])
           ["pdal 1"; "pdal 2"]).
  reflexivity.
Defined.

(** X24. The renaming of the inputs and its undoing: after lines 39 to 43
    no entry of the directory ends in [.laz] and every [.laz] input with a
    stem is there under [.las]; restoring the directory then brings each of
    these inputs back under its own name. *)
Theorem rename_inputs_round_trip (src : list string) (s : string) :
  s <> "" -> In (s ++ ".laz") src ->
  In (s ++ ".las") (rename_inputs src) /\
  (forall f, In f (rename_inputs src) -> endswith f ".laz" = false) /\
  In (s ++ ".laz") (restore (glob ".las" (rename_inputs src)) (rename_inputs src)).
Proof.
  intros Hs Hin. split; [| split].
  - rewrite rename_inputs_renames.
    rewrite <- (stem_suffix s "l" "a" "z" Hs eq_refl eq_refl eq_refl) at 1.
    apply (renames_adds ".laz" ".las" eq_refl eq_refl).
    + intros f. apply glob_suffix.
    + unfold glob. apply filter_In. split; [exact Hin |]. now rewrite endswith_app.
  - intros f Hf. rewrite rename_inputs_renames in Hf.
    exact (renames_clears ".laz" ".las" eq_refl eq_refl f src Hf).
  - now apply restore_rename_inputs.
Qed.

Lemma rename_inputs_round_trip_witness :
  In "tile1.las" (rename_inputs ["tile1.laz"; "tile2.laz"; "readme.txt"]) /\
  In "tile1.laz"
     (restore (glob ".las" (rename_inputs ["tile1.laz"; "tile2.laz"; "readme.txt"]))
              (rename_inputs ["tile1.laz"; "tile2.laz"; "readme.txt"])).
Proof.
  destruct (rename_inputs_round_trip ["tile1.laz"; "tile2.laz"; "readme.txt"] "tile1")
    as (H1 & _ & H3).
  - discriminate.
  - left. reflexivity.
  - split; [exact H1 | exact H3].
Defined.

End Datum.
